(** * DropshipOwl course viewer: progress, grading and admin operations

    A shallow embedding of the logic of
    [street_smarts_style_dropshipping_course_website.jsx]:
    the storage helpers [loadProgress] and [saveProgress], the progress
    updaters [markComplete] and [handleQuizSubmit], the reset button, the
    answer selection and the quiz grading loop of [LessonViewer], the
    marks of [Sidebar], the selection state and [activeLesson], the
    derived values [totalLessons], [completedCount], [pct] and [allDone]
    of [App], the certificate button, and [AdminAddModule]'s [add].

    JavaScript numbers are IEEE 754 binary64 values; they are modelled by
    [spec_float] with the operations of [SpecFloat] at precision 53, so
    that [/], [*], [>=], [Math.round] and [||] compute what the browser
    computes.  Objects used as dictionaries are finite maps of their own
    entries; a read of a key that is no entry falls through to
    [Object.prototype]. *)

From Stdlib Require Import ZArith Lia SpecFloat.
From stdpp Require Import gmap strings list pretty.

(** ** JavaScript numbers *)

Module JS.
Local Open Scope Z_scope.

Definition number : Type := spec_float.

Definition prec : Z := 53.
Definition emax : Z := 1024.

(** An integer as a number (rounded to nearest even beyond 2^53). *)
Definition of_Z (z : Z) : number := binary_normalize prec emax z 0 false.

(** [x / y] and [x * y]. *)
Definition div (x y : number) : number := SFdiv prec emax x y.
Definition mul (x y : number) : number := SFmul prec emax x y.

(** The literal [0.5]. *)
Definition half : number := S754_finite false 4503599627370496 (-53).

(** [x >= y]; false as soon as one side is NaN. *)
Definition ge (x y : number) : bool :=
  match SFcompare x y with
  | Some Eq | Some Gt => true
  | _ => false
  end.

(** [Math.round x]: the integer nearest to [x], ties towards +infinity;
    NaN, the infinities and the zeros are returned as they are, and a
    result of zero keeps the sign of [x]. *)
Definition round_Z (s : bool) (m : positive) (e : Z) : Z :=
  let v := cond_Zopp s (Zpos m) in
  match e with
  | Zneg p => (2 * v + 2 ^ Zpos p) / 2 ^ (Zpos p + 1)
  | _ => v * 2 ^ e
  end.

Definition Math_round (x : number) : number :=
  match x with
  | S754_finite s m e =>
      let k := round_Z s m e in
      if k =? 0 then S754_zero s else of_Z k
  | _ => x
  end.

(** Truthiness of a number: NaN, +0 and -0 are falsy. *)
Definition truthy (x : number) : bool :=
  match x with
  | S754_nan | S754_zero _ => false
  | _ => true
  end.

(** [x || y] on numbers. *)
Definition or (x y : number) : number := if truthy x then x else y.

(** Where [rem / den] lies in the unit interval, for [0 <= rem < den]:
    the rounding information that a division hands to the rounding
    step. *)
Definition location_of (rem den : Z) : location :=
  if rem =? 0 then loc_Exact else loc_Inexact (2 * rem ?= den).

(** Every finite binary64 value is an integer multiple of [2^-1074];
    error bounds are stated on values multiplied by [scale]. *)
Definition scale : Z := 2 ^ 1074.
End JS.

(** ** Course data *)

Record Question := {
  q : string;
  options : list string;
  a : Z
}.

Record Lesson := {
  lesson_id : string;
  lesson_title : string;
  content : string;
  video : option string;
  quiz : list Question
}.

Record Module_ := {
  module_id : string;
  module_title : string;
  lessons : list Lesson
}.

Record Course := {
  course_id : string;
  course_title : string;
  subtitle : string;
  description : string;
  modules : list Module_
}.

Definition SAMPLE_COURSE : Course := {|
  course_id := "dropship-101";
  course_title := "The Complete Dropshipping Blueprint";
  subtitle := "Street-Smart, 2025-ready dropshipping course";
  description := "Build, launch, and scale a profitable dropshipping store — tested tactics, ready-made templates, and quizzes to prove knowledge.";
  modules := [
    {| module_id := "m1";
       module_title := "Introduction & Mindset";
       lessons := [
         {| lesson_id := "m1l1";
            lesson_title := "What is Dropshipping?";
            content := "Short text overview. Dropshipping is a retail fulfillment method where you sell products without stocking inventory.";
            video := Some "https://www.w3schools.com/html/mov_bbb.mp4";
            quiz := [ {| q := "Dropshipping requires you to hold inventory.";
                         options := ["True"; "False"];
                         a := 1 |} ] |};
         {| lesson_id := "m1l2";
            lesson_title := "Mindset & Expectations";
            content := "What success looks like and how to test fast.";
            video := None;
            quiz := [] |} ] |};
    {| module_id := "m2";
       module_title := "Product Research";
       lessons := [
         {| lesson_id := "m2l1";
            lesson_title := "Finding Winning Products";
            content := "Checklist: perceived value, shipping, margin, creative potential.";
            video := None;
            quiz := [ {| q := "Which is NOT a sign of a winning product?";
                         options := ["High perceived value"; "Mass appeal"; "0% markup"];
                         a := 2 |} ] |} ] |} ]
|}.

(** ** Progress record

    [completedLessons] is the object [{ lessonId: true, ... }]: the code
    writes [true] and reads entries for their truthiness, so a value is
    kept as the boolean it is tested as.  [quizScores] maps a lesson id to
    [{ score, outOf }]. *)

Record QuizScore := {
  score : Z;
  outOf : Z
}.

Record Progress := {
  completedLessons : gmap string bool;
  quizScores : gmap string QuizScore
}.

(** The literal [{ completedLessons: {}, quizScores: {} }]. *)
Definition emptyProgress : Progress :=
  {| completedLessons := ∅; quizScores := ∅ |}.

(** A lesson is done when the record holds an entry of its own for the id
    and that entry is truthy: the entry [markComplete] writes.  This is
    membership in the set of completed lessons. *)
Definition done (p : Progress) (id : string) : bool :=
  match completedLessons p !! id with
  | Some v => v
  | None => false
  end.

(** The property names every object inherits from [Object.prototype]; each
    of them reads as a function, or for [__proto__] as the prototype
    itself, hence truthy. *)
Definition Object_prototype_names : list string :=
  [ "constructor"; "hasOwnProperty"; "isPrototypeOf"; "propertyIsEnumerable";
    "toLocaleString"; "toString"; "valueOf"; "__proto__";
    "__defineGetter__"; "__defineSetter__";
    "__lookupGetter__"; "__lookupSetter__" ].

(** [progress.completedLessons[id]] read as a condition, as in
    [!!progress.completedLessons[l.id]]: an entry of the object itself
    decides; without one the read goes on to [Object.prototype], and only
    a name that is not found there either gives [undefined]. *)
Definition reads_done (p : Progress) (id : string) : bool :=
  match completedLessons p !! id with
  | Some v => v
  | None => bool_decide (id ∈ Object_prototype_names)
  end.

(** ** Persistence: [loadProgress]

    [localStorage] is a string-to-string bucket that may refuse access;
    [JSON.parse] is the browser's parser, taken as a parameter: it yields a
    JSON value or throws. *)

#[warnings="-register-all"]
Inductive json :=
  | JNull
  | JBool (b : bool)
  | JNum (n : JS.number)
  | JStr (s : string)
  | JArr (items : list json)
  | JObj (fields : list (string * json)).

Inductive result (A : Type) :=
  | Ok (x : A)
  | Throw (e : string).
Arguments Ok {A} x.
Arguments Throw {A} e.

Inductive Storage :=
  | Blocked
  | Bucket (items : gmap string string).

Definition STORAGE_KEY : string := "dropship_streetsmarts_progress_v1".

Definition getItem (st : Storage) (key : string) : result (option string) :=
  match st with
  | Blocked => Throw "SecurityError"
  | Bucket items => Ok (items !! key)
  end.


Definition removeItem (st : Storage) (key : string) : result Storage :=
  match st with
  | Blocked => Throw "SecurityError"
  | Bucket items => Ok (Bucket (delete key items))
  end.

(** The default record as the JSON value the literal denotes. *)
Definition defaultProgress : json :=
  JObj [("completedLessons", JObj []); ("quizScores", JObj [])].

Definition try_catch {A : Type} (body : result A) (handler : string → A) : A :=
  match body with
  | Ok x => x
  | Throw e => handler e
  end.

Definition result_bind {A B : Type} (r : result A) (k : A → result B) : result B :=
  match r with
  | Ok x => k x
  | Throw e => Throw e
  end.

(** A string is truthy unless it is empty. *)
Definition string_truthy (s : string) : bool :=
  match s with
  | EmptyString => false
  | String _ _ => true
  end.

Section Persistence.
Variable JSON_parse : string → result json.

Definition loadProgress (st : Storage) : json :=
  try_catch
    (result_bind (getItem st STORAGE_KEY) (λ raw,
       match raw with
       | Some text =>
           if string_truthy text then JSON_parse text else Ok defaultProgress
       | None => Ok defaultProgress
       end))
    (λ _, defaultProgress).

(** [JSON.stringify], the browser's serializer, taken as a parameter. *)
Variable JSON_stringify : json → string.

End Persistence.

(** ** Progress updates

    [setProgress] with an updater function queues a state transition;
    the queued updaters of one event handler run in order, each on the
    result of the one before.  This is a state monad over [Progress]. *)

Definition State (A : Type) : Type := Progress → A * Progress.

Definition ret {A : Type} (x : A) : State A := λ p, (x, p).

Definition bind {A B : Type} (c : State A) (k : A → State B) : State B :=
  λ p, let '(x, p') := c p in k x p'.

Notation "c1 ;; c2" := (bind c1 (λ _, c2))
  (at level 100, c2 at level 200, right associativity).

Definition setProgress (f : Progress → Progress) : State unit :=
  λ p, (tt, f p).

Definition exec {A : Type} (c : State A) (p : Progress) : Progress := snd (c p).

Definition markComplete (lessonId : string) : State unit :=
  setProgress (λ p,
    {| completedLessons := <[lessonId := true]> (completedLessons p);
       quizScores := quizScores p |}).

Definition handleQuizSubmit (lessonId : string) (score outOf : Z) : State unit :=
  setProgress (λ p,
    {| completedLessons := completedLessons p;
       quizScores :=
         <[lessonId := {| score := score; outOf := outOf |}]> (quizScores p) |}) ;;
  if JS.ge (JS.div (JS.of_Z score) (JS.of_Z outOf)) JS.half
  then markComplete lessonId
  else ret tt.

(** Pressing [Mark Complete] on each lesson of [ids] in turn. *)
Fixpoint markAll (ids : list string) : State unit :=
  match ids with
  | [] => ret tt
  | id :: rest => markComplete id ;; markAll rest
  end.

(** The [Reset Progress] button:
    [localStorage.removeItem(STORAGE_KEY); setProgress({ completedLessons: {}, quizScores: {} })]. *)
Definition resetProgress (st : Storage) (p : Progress) : result (Storage * Progress) :=
  result_bind (removeItem st STORAGE_KEY) (λ st',
    Ok (st', exec (setProgress (λ _, emptyProgress)) p)).

(** ** Quiz grading ([LessonViewer], the form's [onSubmit]) *)

(** [lesson.quiz.forEach((q, i) => { if (answers[i] === q.a) score++; })],
    started at index [i] with the running [score]. *)
Fixpoint forEach_grade (questions : list Question) (i : nat)
    (answers : gmap nat Z) (score : Z) : Z :=
  match questions with
  | [] => score
  | qn :: rest =>
      forEach_grade rest (S i) answers
        (if bool_decide (answers !! i = Some (a qn)) then (score + 1)%Z else score)
  end.

(** The pair handed to [onSubmitQuiz]: the score and [lesson.quiz.length]. *)
Definition grade (questions : list Question) (answers : gmap nat Z) : Z * Z :=
  (forEach_grade questions 0 answers 0%Z, Z.of_nat (length questions)).

Definition onSubmit (lesson : Lesson) (answers : gmap nat Z) : State unit :=
  let '(score, outOf) := grade (quiz lesson) answers in
  handleQuizSubmit (lesson_id lesson) score outOf.

(** The quiz form is rendered when [lesson.quiz && lesson.quiz.length > 0]. *)
Definition hasQuizForm (lesson : Lesson) : bool :=
  negb (Nat.eqb (length (quiz lesson)) 0).

(** A radio button of question [idx]:
    [setAnswers((s) => ({ ...s, [idx]: oi }))]. *)
Definition selectOption (idx oi : nat) (answers : gmap nat Z) : gmap nat Z :=
  <[idx := Z.of_nat oi]> answers.

(** ** Derived values of [App]

    Lengths and their sums are integers; they are exact as numbers below
    [2^53] and enter the division through [JS.of_Z]. *)

Definition totalLessons (course : Course) : Z :=
  fold_left (λ s m, (s + Z.of_nat (length (lessons m)))%Z) (modules course) 0%Z.

Definition completedCount (progress : Progress) : Z :=
  Z.of_nat (size (completedLessons progress)).

(** [Math.round((count / total) * 100) || 0]. *)
Definition percent (count total : Z) : JS.number :=
  JS.or
    (JS.Math_round
       (JS.mul (JS.div (JS.of_Z count) (JS.of_Z total)) (JS.of_Z 100)))
    (JS.of_Z 0).

Definition pct (course : Course) (progress : Progress) : JS.number :=
  percent (completedCount progress) (totalLessons course).

(** [course.modules.every(m => m.lessons.every(l => progress.completedLessons[l.id]))]. *)
Definition allDone (course : Course) (progress : Progress) : bool :=
  forallb (λ m, forallb (λ l, reads_done progress (lesson_id l)) (lessons m))
    (modules course).

(** [const done = !!progress.completedLessons[l.id]] for every lesson of
    the sidebar, module by module. *)
Definition sidebarMarks (course : Course) (progress : Progress) : list bool :=
  flat_map (λ m, map (λ l, reads_done progress (lesson_id l)) (lessons m))
    (modules course).

(** The [Quick Print Certificate] button: an alert unless every lesson is
    complete, the print window otherwise. *)
Inductive PrintOutcome :=
  | Alert (message : string)
  | PrintWindow.

Definition quickPrintCertificate (course : Course) (progress : Progress) : PrintOutcome :=
  if negb (allDone course progress)
  then Alert "Finish all lessons to get a certificate."
  else PrintWindow.

(** [profile.name || "Student"] on the certificate. *)
Definition certificateName (name : string) : string :=
  if string_truthy name then name else "Student".

(** ** Selection *)

(** The initial [activeModuleId] and [activeLessonId]:
    [course.modules[0].id] and [course.modules[0].lessons[0].id]; reading
    [.id] or [.lessons] of [undefined] throws. *)
Definition initialSelection (course : Course) : result (string * string) :=
  match modules course with
  | [] => Throw "TypeError"
  | m :: _ =>
      match lessons m with
      | [] => Throw "TypeError"
      | l :: _ => Ok (module_id m, lesson_id l)
      end
  end.

(** [handleSelectLesson(mId, lId)] sets both ids. *)
Definition handleSelectLesson (mId lId : string) (selection : string * string) :
    string * string :=
  (mId, lId).

(** [const mod = course.modules.find((m) => m.id === activeModuleId);
     return mod?.lessons.find((l) => l.id === activeLessonId) || null]. *)
Definition activeLesson (course : Course) (activeModuleId activeLessonId : string) :
    option Lesson :=
  match find (λ m, bool_decide (module_id m = activeModuleId)) (modules course) with
  | Some found => find (λ l, bool_decide (lesson_id l = activeLessonId)) (lessons found)
  | None => None
  end.


(** ** Admin editor: [AdminAddModule]

    The component holds the text of the input in [title]; [add] reads the
    clock ([Date.now()], milliseconds as a natural number) to mint the id
    of the new module.  It returns the course and the title state it
    leaves behind. *)

Definition module_id_at (now : N) : string := "m_" +:+ pretty now.

Definition add (now : N) (course : Course) (title : string) : Course * string :=
  if negb (string_truthy title) then (course, title)
  else
      let id := module_id_at now in
      let newModule := {| module_id := id; module_title := title; lessons := [] |} in
      ({| course_id := course_id course;
          course_title := course_title course;
          subtitle := subtitle course;
          description := description course;
          modules := modules course ++ [newModule] |},
       EmptyString).

(** Pressing [Add] once per event, each with the clock reading and the
    text typed into the input before the click. *)
Fixpoint addAll (events : list (N * string)) (course : Course) : Course :=
  match events with
  | [] => course
  | (now, typed) :: rest => addAll rest (add now course typed).1
  end.

(** The course title input: [setCourse({ ...course, title: e.target.value })]. *)
Definition setCourseTitle (value : string) (course : Course) : Course :=
  {| course_id := course_id course;
     course_title := value;
     subtitle := subtitle course;
     description := description course;
     modules := modules course |}.

(** ** Quantities the specification speaks of *)

(** The lesson ids of a course, module by module. *)
Definition lessonsOf (course : Course) : list string :=
  flat_map (λ m, map lesson_id (lessons m)) (modules course).

(** Nearest integer to [num / den] for [den > 0], halves upwards. *)
Definition round_half_up (num den : Z) : Z := ((2 * num + den) / (2 * den))%Z.

(** The percentage as the specification words it: only completed ids that
    occur in the course count. *)
Definition completionPercent_spec (course : Course) (progress : Progress) : Z :=
  round_half_up
    (100 * Z.of_nat (size (dom (completedLessons progress)
                             ∩ list_to_set (C := gset string) (lessonsOf course))))
    (totalLessons course).

(** Certificate eligibility as the specification words it: every lesson id
    of the course is in the set of completed lessons. *)
Definition isCertificateEligible (course : Course) (progress : Progress) : Prop :=
  ∀ id, id ∈ lessonsOf course → done progress id = true.

(** Question [i] exists and its recorded answer is the correct index. *)
Definition answered_correctly (questions : list Question) (answers : gmap nat Z)
    (i : nat) : bool :=
  match questions !! i with
  | Some qn => bool_decide (answers !! i = Some (a qn))
  | None => false
  end.

(** A number that is the integer [k] with [lo <= k <= hi]. *)
Definition integer_between (lo hi : Z) (x : JS.number) : Prop :=
  ∃ k : Z, x = JS.of_Z k ∧ (lo ≤ k ≤ hi)%Z.

(** ** Sample values *)

(** A record left over from an earlier edition of the course. *)
Definition staleProgress : Progress :=
  {| completedLessons := {[ "intro" := true ]}; quizScores := ∅ |}.

(** Three completed ids, none of which is a lesson of [SAMPLE_COURSE]. *)
Definition foreignProgress : Progress :=
  {| completedLessons := {[ "a1" := true; "a2" := true; "a3" := true ]};
     quizScores := ∅ |}.

(** Two of the three sample lessons completed. *)
Definition partialProgress : Progress :=
  {| completedLessons := {[ "m1l1" := true; "m1l2" := true ]}; quizScores := ∅ |}.

(** A course whose only lesson carries the id [constructor]. *)
Definition CONSTRUCTOR_COURSE : Course :=
  {| course_id := "oop"; course_title := "Objects"; subtitle := "";
     description := "";
     modules := [ {| module_id := "m1"; module_title := "Classes";
                     lessons := [ {| lesson_id := "constructor";
                                     lesson_title := "Constructors";
                                     content := ""; video := None;
                                     quiz := [] |} ] |} ] |}.

(** A course whose only module has no lessons yet. *)
Definition EMPTY_COURSE : Course :=
  {| course_id := "draft"; course_title := "Draft"; subtitle := "";
     description := "";
     modules := [ {| module_id := "m1"; module_title := "Soon"; lessons := [] |} ] |}.

(** An id that no click at [now] or later can have minted. *)
Definition minted_before (now : N) (id : string) : Prop :=
  ∀ t : N, id = module_id_at t → (t < now)%N.

(** Clock readings that strictly increase, all at or after [now]. *)
Fixpoint advancing (now : N) (events : list (N * string)) : Prop :=
  match events with
  | [] => True
  | (t, _) :: rest => (now ≤ t)%N ∧ advancing (t + 1) rest
  end.


(** A parser that knows the text [null] and rejects everything else. *)
Definition parse_null_only (text : string) : result json :=
  if bool_decide (text = "null") then Ok JNull else Throw "SyntaxError".

Module JSFacts.
Import JS.
Local Open Scope Z_scope.

(** *** Binary digits *)

Lemma digits2_pos_bounds (p : positive) :
  2 ^ (Zpos (digits2_pos p) - 1) ≤ Zpos p < 2 ^ Zpos (digits2_pos p).
Proof.
  induction p as [p IH|p IH|]; cbn [digits2_pos].
  - rewrite Pos2Z.inj_succ.
    replace (Z.succ (Zpos (digits2_pos p)) - 1) with (Z.succ (Zpos (digits2_pos p) - 1)) by lia.
    rewrite !Z.pow_succ_r by lia. lia.
  - rewrite Pos2Z.inj_succ.
    replace (Z.succ (Zpos (digits2_pos p)) - 1) with (Z.succ (Zpos (digits2_pos p) - 1)) by lia.
    rewrite !Z.pow_succ_r by lia. lia.
  - simpl. lia.
Qed.

Lemma digits2_pos_unique (p : positive) (d : Z) :
  2 ^ (d - 1) ≤ Zpos p < 2 ^ d → Zpos (digits2_pos p) = d.
Proof.
  intros [Hlo Hhi]. pose proof (digits2_pos_bounds p) as [Blo Bhi].
  set (d' := Zpos (digits2_pos p)) in *.
  assert (0 < d').
  { subst d'. lia. }
  assert (0 < d).
  { destruct (Z.ltb_spec 0 d); [done|].
    destruct (Z.eqb_spec d 0) as [->|]; [simpl in Hhi; lia|].
    rewrite Z.pow_neg_r in Hhi by lia. lia. }
  destruct (Z.lt_trichotomy d' d) as [Hlt|[Heq|Hgt]]; [|done|].
  - assert (2 ^ d' ≤ 2 ^ (d - 1)) by (apply Z.pow_le_mono_r; lia). lia.
  - assert (2 ^ d ≤ 2 ^ (d' - 1)) by (apply Z.pow_le_mono_r; lia). lia.
Qed.

(** *** Shifting a mantissa to the right *)

Lemma iter_pos_nat {A : Type} (f : A → A) (p : positive) (x : A) :
  SpecFloat.iter_pos f p x = Nat.iter (Pos.to_nat p) f x.
Proof.
  revert x. induction p as [p IH|p IH|]; intros x; cbn [SpecFloat.iter_pos].
  - rewrite !IH, Pos2Nat.inj_xI.
    replace (S (2 * Pos.to_nat p))%nat with (Pos.to_nat p + S (Pos.to_nat p))%nat by lia.
    rewrite Nat.iter_add. f_equal. by rewrite Nat.iter_succ_r.
  - rewrite !IH, Pos2Nat.inj_xO.
    replace (2 * Pos.to_nat p)%nat with (Pos.to_nat p + Pos.to_nat p)%nat by lia.
    by rewrite Nat.iter_add.
  - reflexivity.
Qed.

Lemma shr_1_nonneg (m : Z) (r s : bool) :
  0 ≤ m →
  shr_1 {| shr_m := m; shr_r := r; shr_s := s |}
  = {| shr_m := m / 2; shr_r := Z.odd m; shr_s := r || s |}.
Proof.
  intros Hm. rewrite <- Z.div2_div.
  destruct m as [|[p|p|]|]; try reflexivity. lia.
Qed.

Lemma shr_iter (n : nat) (M : Z) (r0 s0 : bool) :
  0 ≤ M →
  ∃ m r s rem,
    Nat.iter (S n) shr_1 {| shr_m := M; shr_r := r0; shr_s := s0 |}
      = {| shr_m := m; shr_r := r; shr_s := s |}
    ∧ 0 ≤ m
    ∧ M = 2 ^ Z.of_nat (S n) * m + rem
    ∧ 0 ≤ rem < 2 ^ Z.of_nat (S n)
    ∧ (if r then 2 ^ Z.of_nat (S n) ≤ 2 * rem else 2 * rem < 2 ^ Z.of_nat (S n))
    ∧ (s = false →
       r0 = false ∧ s0 = false ∧
       if r then 2 * rem = 2 ^ Z.of_nat (S n) else rem = 0).
Proof.
  intros HM. induction n as [|n IH].
  - cbn [Nat.iter]. rewrite shr_1_nonneg by done.
    exists (M / 2), (Z.odd M), (r0 || s0), (M mod 2).
    change (2 ^ Z.of_nat 1) with 2.
    pose proof (Z.div_mod M 2 ltac:(lia)) as Hdm.
    pose proof (Z.mod_pos_bound M 2 ltac:(lia)) as Hb.
    pose proof (Zmod_odd M) as Ho.
    split; [done|]. split; [apply Z.div_pos; lia|]. split; [lia|]. split; [lia|].
    split.
    + destruct (Z.odd M); lia.
    + intros Hs. apply orb_false_iff in Hs as [-> ->].
      split; [done|]. split; [done|]. destruct (Z.odd M); lia.
  - destruct IH as (m & r & s & rem & Hit & Hm & HMeq & Hrem & Hr & Hs).
    rewrite Nat.iter_succ, Hit, shr_1_nonneg by done.
    exists (m / 2), (Z.odd m), (r || s), (2 ^ Z.of_nat (S n) * (m mod 2) + rem).
    pose proof (Z.div_mod m 2 ltac:(lia)) as Hdm.
    pose proof (Z.mod_pos_bound m 2 ltac:(lia)) as Hb.
    pose proof (Zmod_odd m) as Ho.
    replace (Z.of_nat (S (S n))) with (Z.succ (Z.of_nat (S n))) by lia.
    rewrite Z.pow_succ_r by lia.
    set (P := 2 ^ Z.of_nat (S n)) in *.
    assert (0 < P) by (apply Z.pow_pos_nonneg; lia).
    split; [done|]. split; [apply Z.div_pos; lia|].
    split; [nia|]. split; [nia|]. split.
    + destruct (Z.odd m); nia.
    + intros Hrs. apply orb_false_iff in Hrs as [-> ->].
      destruct (Hs eq_refl) as (-> & -> & Hz).
      split; [done|]. split; [done|]. destruct (Z.odd m); nia.
Qed.

(** *** Rounding to 53 bits *)

Lemma fexp_normal (d : Z) : -1074 ≤ d - 53 → fexp prec emax d = d - 53.
Proof. unfold fexp, emin, prec, emax. lia. Qed.

Lemma location_record (M rem den : Z) :
  0 ≤ rem < den →
  ∃ r s,
    shr_record_of_loc M (location_of rem den)
      = {| shr_m := M; shr_r := r; shr_s := s |}
    ∧ (if r then den ≤ 2 * rem else 2 * rem < den)
    ∧ (s = false → if r then 2 * rem = den else rem = 0).
Proof.
  intros Hrem. unfold location_of.
  destruct (Z.eqb_spec rem 0) as [->|Hne].
  - exists false, false. cbn. split; [done|]. split; [lia|done].
  - destruct (Z.compare_spec (2 * rem) den) as [Heq|Hlt|Hgt].
    + exists true, false. cbn. split; [done|]. split; [lia|intros _; lia].
    + exists false, true. cbn. split; [done|]. split; [lia|done].
    + exists true, true. cbn. split; [done|]. split; [lia|done].
Qed.

Lemma shr_fexp_first (mz ez rem0 den0 n : Z) :
  0 < mz → 0 ≤ n → Zdigits2 mz = 53 + n → -1074 ≤ ez + n →
  0 ≤ rem0 < den0 →
  ∃ m1 r s rem,
    shr_fexp prec emax mz ez (location_of rem0 den0)
      = ({| shr_m := m1; shr_r := r; shr_s := s |}, ez + n)
    ∧ mz = 2 ^ n * m1 + rem
    ∧ 0 ≤ rem < 2 ^ n
    ∧ (if r then 2 ^ n * den0 ≤ 2 * (rem * den0 + rem0)
       else 2 * (rem * den0 + rem0) < 2 ^ n * den0)
    ∧ (s = false →
       if r then 2 * (rem * den0 + rem0) = 2 ^ n * den0
       else rem * den0 + rem0 = 0).
Proof.
  intros Hmz Hn Hd He Hrem0. unfold shr_fexp. rewrite Hd.
  rewrite fexp_normal by lia.
  replace (53 + n + ez - 53 - ez) with n by lia.
  destruct (location_record mz rem0 den0 Hrem0) as (r0 & s0 & -> & Hr0 & Hs0).
  destruct n as [|p|p]; [| |lia].
  - exists mz, r0, s0, 0. cbn [shr]. rewrite Z.add_0_r.
    split; [done|]. change (2 ^ 0) with 1.
    split; [lia|]. split; [lia|]. split.
    + destruct r0; lia.
    + intros Hs. specialize (Hs0 Hs). destruct r0; lia.
  - cbn [shr]. rewrite iter_pos_nat.
    destruct (Pos2Nat.is_succ p) as [k Hk]. rewrite Hk.
    destruct (shr_iter k mz r0 s0 ltac:(lia))
      as (m & r & s & rem & Hit & Hm & HMeq & Hrem & Hr & Hs).
    replace (Z.of_nat (S k)) with (Zpos p) in * by lia.
    exists m, r, s, rem. rewrite Hit.
    assert (Heven : ∃ Q, 2 ^ Zpos p = 2 * Q).
    { exists (2 ^ (Zpos p - 1)). rewrite <- Z.pow_succ_r by lia. f_equal. lia. }
    destruct Heven as [Q HQ].
    set (P := 2 ^ Zpos p) in *.
    split; [done|]. split; [done|]. split; [done|]. split.
    + destruct r.
      * assert (P * den0 ≤ 2 * rem * den0)
          by (apply Z.mul_le_mono_nonneg_r; lia). lia.
      * assert (rem * den0 ≤ (Q - 1) * den0)
          by (apply Z.mul_le_mono_nonneg_r; lia). lia.
    + intros Hsf. destruct (Hs Hsf) as (-> & -> & Hz).
      specialize (Hs0 eq_refl). cbn in Hs0. subst rem0.
      destruct r; [|subst rem; lia].
      replace rem with Q by lia. lia.
Qed.

Lemma shr_fexp_exact_53 (m e : Z) :
  2 ^ 52 ≤ m < 2 ^ 53 → -1074 ≤ e →
  shr_fexp prec emax m e loc_Exact
    = ({| shr_m := m; shr_r := false; shr_s := false |}, e).
Proof.
  intros Hm He. unfold shr_fexp.
  destruct m as [|p|p]; [lia| |lia].
  cbn [Zdigits2]. rewrite (digits2_pos_unique p 53) by (simpl; lia).
  rewrite fexp_normal by lia.
  replace (53 + e - 53 - e) with 0 by lia. reflexivity.
Qed.

Lemma shr_fexp_exact_carry (e : Z) :
  -1074 ≤ e →
  shr_fexp prec emax (2 ^ 53) e loc_Exact
    = ({| shr_m := 2 ^ 52; shr_r := false; shr_s := false |}, e + 1).
Proof.
  intros He. unfold shr_fexp.
  change (Zdigits2 (2 ^ 53)) with 54.
  rewrite fexp_normal by lia.
  replace (54 + e - 53 - e) with 1 by lia. reflexivity.
Qed.

(** The rounding step of every operation: a positive mantissa [mz] of
    [53 + n] bits with the exact value [(mz + rem / den) * 2^ez]
    becomes a 53-bit mantissa, at most half a unit in the last place
    away from the exact value. *)
Lemma binary_round_aux_nearest (sx : bool) (mz ez rem den n : Z) :
  0 < mz → 0 ≤ n → Zdigits2 mz = 53 + n →
  -1074 ≤ ez + n → ez + n + 1 ≤ 971 →
  0 ≤ rem < den →
  ∃ (m : positive) (j : Z),
    binary_round_aux prec emax sx mz ez (location_of rem den)
      = S754_finite sx m (ez + j)
    ∧ n ≤ j ≤ n + 1
    ∧ 2 ^ 52 ≤ Zpos m < 2 ^ 53
    ∧ 2 * Z.abs (Zpos m * 2 ^ j * den - (mz * den + rem)) ≤ 2 ^ j * den.
Proof.
  intros Hmz Hn Hd Helo Hehi Hrem.
  destruct (shr_fexp_first mz ez rem den n Hmz Hn Hd Helo Hrem)
    as (m1 & r & s & rho & Hshr & Hmzeq & Hrho & Hr & Hs).
  unfold binary_round_aux. rewrite Hshr. cbn [shr_m].
  assert (HP : 0 < 2 ^ n) by (apply Z.pow_pos_nonneg; lia).
  assert (Hm1 : 2 ^ 52 ≤ m1 < 2 ^ 53).
  { destruct mz as [|p|p]; [lia| |lia]. cbn [Zdigits2] in Hd.
    pose proof (digits2_pos_bounds p) as Hb. rewrite Hd in Hb.
    replace (53 + n - 1) with (52 + n) in Hb by lia.
    rewrite !Z.pow_add_r in Hb by lia.
    set (P := 2 ^ n) in *. nia. }
  set (m2 := round_nearest_even m1
               (loc_of_shr_record {| shr_m := m1; shr_r := r; shr_s := s |})).
  assert (Hm2 : (m2 = m1 ∨ m2 = m1 + 1)
                ∧ 2 * Z.abs (m2 * 2 ^ n * den - (mz * den + rem)) ≤ 2 ^ n * den).
  { subst m2. set (P := 2 ^ n) in *.
    destruct r, s; cbn [loc_of_shr_record round_nearest_even].
    - split; [by right|]. nia.
    - specialize (Hs eq_refl). cbn in Hs.
      destruct (Z.even m1); (split; [auto|]); nia.
    - split; [by left|]. nia.
    - split; [by left|]. nia. }
  destruct Hm2 as [Hm2 Hbound].
  destruct (Z.eq_dec m2 (2 ^ 53)) as [Hc|Hnc].
  - rewrite Hc, shr_fexp_exact_carry by lia. cbn [shr_m].
    change (2 ^ 52) with (Zpos 4503599627370496).
    exists 4503599627370496%positive, (n + 1).
    replace (ez + n + 1 <=? emax - prec) with true
      by (symmetry; apply Z.leb_le; unfold emax, prec; lia).
    split; [f_equal; lia|]. split; [lia|]. split; [simpl; lia|].
    rewrite Z.pow_add_r by lia. change (2 ^ 1) with 2.
    rewrite Hc in Hbound. change (Zpos 4503599627370496) with (2 ^ 52).
    change (2 ^ 53) with (2 ^ 52 * 2) in Hbound. nia.
  - rewrite shr_fexp_exact_53 by lia. cbn [shr_m].
    destruct m2 as [|p|p] eqn:Hp; [lia| |lia].
    exists p, n.
    replace (ez + n <=? emax - prec) with true
      by (symmetry; apply Z.leb_le; unfold emax, prec; lia).
    split; [done|]. split; [lia|]. split; [lia|done].
Qed.

Lemma binary_round_aux_exact (sx : bool) (m : positive) (e : Z) :
  2 ^ 52 ≤ Zpos m < 2 ^ 53 → -1074 ≤ e ≤ 971 →
  binary_round_aux prec emax sx (Zpos m) e loc_Exact = S754_finite sx m e.
Proof.
  intros Hm He. unfold binary_round_aux.
  rewrite shr_fexp_exact_53 by lia. cbn [shr_m loc_of_shr_record round_nearest_even].
  rewrite shr_fexp_exact_53 by lia. cbn [shr_m].
  replace (e <=? emax - prec) with true
    by (symmetry; apply Z.leb_le; unfold emax, prec; lia).
  reflexivity.
Qed.

(** *** Integers as numbers *)

Lemma Pos_iter_xO (m k : positive) :
  Zpos (Pos.iter xO m k) = Zpos m * 2 ^ Zpos k.
Proof.
  induction k as [|k IH] using Pos.peano_ind.
  - cbn [Pos.iter]. change (2 ^ 1) with 2. lia.
  - rewrite Pos.iter_succ, Pos2Z.inj_xO, IH, Pos2Z.inj_succ, Z.pow_succ_r by lia. lia.
Qed.

Lemma binary_round_small (sx : bool) (n : positive) :
  Zpos n < 2 ^ 53 →
  ∃ (m : positive) (e : Z),
    binary_round prec emax sx n 0 = S754_finite sx m e
    ∧ 2 ^ 52 ≤ Zpos m < 2 ^ 53
    ∧ -52 ≤ e ≤ 0
    ∧ Zpos m = Zpos n * 2 ^ (- e).
Proof.
  intros Hn. unfold binary_round.
  pose proof (digits2_pos_bounds n) as Hd.
  set (d := Zpos (digits2_pos n)) in *.
  assert (Hd53 : 0 < d ≤ 53).
  { split; [subst d; lia|].
    destruct (Z.leb_spec d 53); [done|].
    assert (2 ^ 53 ≤ 2 ^ (d - 1)) by (apply Z.pow_le_mono_r; lia). lia. }
  rewrite Z.add_0_r, fexp_normal by lia. unfold shl_align.
  rewrite Z.sub_0_r.
  destruct (d - 53) as [|k|k] eqn:Hk; [| lia |].
  - assert (d = 53) as Hd' by lia. rewrite Hd' in Hd.
    rewrite binary_round_aux_exact by lia.
    exists n, 0. split; [done|]. split; [done|]. split; [lia|].
    change (2 ^ (- 0)) with 1. lia.
  - assert (Hbits : 2 ^ 52 ≤ Zpos (Pos.iter xO n k) < 2 ^ 53).
    { rewrite Pos_iter_xO.
      replace 52 with ((d - 1) + Zpos k) by lia.
      replace 53 with (d + Zpos k) by lia.
      rewrite !Z.pow_add_r by lia.
      assert (0 < 2 ^ Zpos k) by (apply Z.pow_pos_nonneg; lia). nia. }
    rewrite binary_round_aux_exact by lia.
    exists (Pos.iter xO n k), (Z.neg k).
    split; [done|]. split; [done|]. split; [lia|].
    rewrite Pos_iter_xO. reflexivity.
Qed.

Lemma of_Z_safe (n : Z) :
  0 < n < 2 ^ 53 →
  ∃ (m : positive) (e : Z),
    of_Z n = S754_finite false m e
    ∧ of_Z (- n) = S754_finite true m e
    ∧ 2 ^ 52 ≤ Zpos m < 2 ^ 53
    ∧ -52 ≤ e ≤ 0
    ∧ Zpos m = n * 2 ^ (- e).
Proof.
  intros Hn. destruct n as [|p|p]; [lia| |lia].
  destruct (binary_round_small false p ltac:(lia)) as (m & e & H1 & Hm & He & Hv).
  destruct (binary_round_small true p ltac:(lia)) as (m' & e' & H2 & _).
  exists m, e. unfold of_Z. cbn [binary_normalize Z.opp].
  split; [done|]. split; [|done].
  change (- Z.pos p) with (Z.neg p). cbn [binary_normalize].
  rewrite H2. unfold binary_round in *.
  destruct (shl_align _ _ _) as [mz ez].
  unfold binary_round_aux in *.
  destruct (shr_fexp _ _ _ _ _) as [mrs1 e1].
  destruct (shr_fexp _ _ _ _ _) as [mrs2 e2].
  destruct (shr_m mrs2); try discriminate.
  destruct (e2 <=? _); congruence.
Qed.

(** *** Division *)

Lemma new_location_location_of (den rem : Z) :
  0 ≤ rem < den → new_location den rem = location_of rem den.
Proof.
  intros Hr. unfold new_location, new_location_even, new_location_odd, location_of.
  destruct (Z.even den) eqn:Hev; [done|].
  destruct (Z.eqb_spec rem 0); [done|]. f_equal.
  assert (Hodd : Z.odd den = true) by (rewrite <- Z.negb_even, Hev; done).
  apply Z.odd_spec in Hodd as [h Hh].
  destruct (Z.compare_spec (2 * rem + 1) den), (Z.compare_spec (2 * rem) den);
    try done; lia.
Qed.

Lemma SFdiv_core_53 (m1 m2 : positive) (e1 e2 : Z) :
  2 ^ 52 ≤ Zpos m1 < 2 ^ 53 → 2 ^ 52 ≤ Zpos m2 < 2 ^ 53 →
  -1021 ≤ e1 - e2 →
  SFdiv_core_binary prec emax (Zpos m1) e1 (Zpos m2) e2
  = (Zpos m1 * 2 ^ 53 / Zpos m2, e1 - e2 - 53,
     location_of ((Zpos m1 * 2 ^ 53) mod Zpos m2) (Zpos m2)).
Proof.
  intros H1 H2 He. unfold SFdiv_core_binary. cbn [Zdigits2].
  rewrite (digits2_pos_unique m1 53), (digits2_pos_unique m2 53) by (simpl; lia).
  rewrite fexp_normal by lia.
  replace (Z.min (53 + e1 - (53 + e2) - 53) (e1 - e2)) with (e1 - e2 - 53) by lia.
  replace (e1 - e2 - (e1 - e2 - 53)) with 53 by lia.
  rewrite Z.shiftl_mul_pow2 by lia.
  unfold Z.div, Z.modulo.
  pose proof (Z_div_mod (Zpos m1 * 2 ^ 53) (Zpos m2) ltac:(lia)) as Hdm.
  destruct (Z.div_eucl (Zpos m1 * 2 ^ 53) (Zpos m2)) as [q r].
  rewrite new_location_location_of by lia. reflexivity.
Qed.

Lemma div_nearest (sx sy : bool) (m1 m2 : positive) (e1 e2 : Z) :
  2 ^ 52 ≤ Zpos m1 < 2 ^ 53 → 2 ^ 52 ≤ Zpos m2 < 2 ^ 53 →
  -1000 ≤ e1 - e2 ≤ 1000 →
  ∃ (m : positive) (j : Z),
    div (S754_finite sx m1 e1) (S754_finite sy m2 e2)
      = S754_finite (xorb sx sy) m (e1 - e2 - 53 + j)
    ∧ 0 ≤ j ≤ 2
    ∧ 2 ^ 52 ≤ Zpos m < 2 ^ 53
    ∧ 2 * Z.abs (Zpos m * 2 ^ j * Zpos m2 - Zpos m1 * 2 ^ 53) ≤ 2 ^ j * Zpos m2.
Proof.
  intros H1 H2 He. unfold div. cbn [SFdiv].
  rewrite SFdiv_core_53 by lia.
  set (a := Zpos m1 * 2 ^ 53).
  pose proof (Z.div_mod a (Zpos m2) ltac:(lia)) as Hdm.
  pose proof (Z.mod_pos_bound a (Zpos m2) ltac:(lia)) as Hrem.
  set (qz := a / Zpos m2) in *. set (rz := a mod Zpos m2) in *.
  assert (Hq : 2 ^ 52 ≤ qz < 2 ^ 54).
  { subst a. change (2 ^ 54) with (2 * 2 ^ 53). 
    change (2 ^ 53) with (2 * 2 ^ 52) in *. nia. }
  destruct qz as [|q|q] eqn:Hqz; [lia| |lia].
  pose proof (digits2_pos_bounds q) as Hd.
  set (d := Zpos (digits2_pos q)) in *.
  assert (Hdv : d = 53 ∨ d = 54).
  { destruct (Z.lt_trichotomy (Zpos q) (2 ^ 53)) as [Hlt|[Heq|Hgt]].
    - left. subst d. apply digits2_pos_unique. simpl; lia.
    - right. subst d. apply digits2_pos_unique. simpl; lia.
    - right. subst d. apply digits2_pos_unique. simpl; lia. }
  destruct (binary_round_aux_nearest (xorb sx sy) (Zpos q) (e1 - e2 - 53) rz (Zpos m2) (d - 53))
    as (m & j & Hres & Hj & Hm & Hb);
    [lia|lia|cbn [Zdigits2]; fold d; lia|lia|lia|lia|].
  exists m, j. split; [done|]. split; [lia|]. split; [done|].
  replace (Zpos q * Zpos m2 + rz) with a in Hb by lia. done.
Qed.

(** *** Multiplication *)

Lemma mul_nearest (sx sy : bool) (m1 m2 : positive) (e1 e2 : Z) :
  2 ^ 52 ≤ Zpos m1 < 2 ^ 53 → 2 ^ 52 ≤ Zpos m2 < 2 ^ 53 →
  -1000 ≤ e1 + e2 ≤ 800 →
  ∃ (m : positive) (j : Z),
    mul (S754_finite sx m1 e1) (S754_finite sy m2 e2)
      = S754_finite (xorb sx sy) m (e1 + e2 + j)
    ∧ 52 ≤ j ≤ 54
    ∧ 2 ^ 52 ≤ Zpos m < 2 ^ 53
    ∧ 2 * Z.abs (Zpos m * 2 ^ j - Zpos m1 * Zpos m2) ≤ 2 ^ j.
Proof.
  intros H1 H2 He. unfold mul. cbn [SFmul].
  change loc_Exact with (location_of 0 1).
  assert (Hp : 2 ^ 104 ≤ Zpos (m1 * m2) < 2 ^ 106).
  { rewrite Pos2Z.inj_mul.
    change (2 ^ 104) with (2 ^ 52 * 2 ^ 52). change (2 ^ 106) with (2 ^ 53 * 2 ^ 53).
    nia. }
  pose proof (digits2_pos_bounds (m1 * m2)) as Hd.
  set (d := Zpos (digits2_pos (m1 * m2))) in *.
  assert (Hdv : d = 105 ∨ d = 106).
  { destruct (Z.ltb_spec (Zpos (m1 * m2)) (2 ^ 105)).
    - left. subst d. apply digits2_pos_unique. simpl; lia.
    - right. subst d. apply digits2_pos_unique. simpl; lia. }
  destruct (binary_round_aux_nearest (xorb sx sy) (Zpos (m1 * m2)) (e1 + e2) 0 1 (d - 53))
    as (m & j & Hres & Hj & Hm & Hb);
    [lia|lia|cbn [Zdigits2]; fold d; lia|lia|lia|lia|].
  exists m, j. split; [done|]. split; [lia|]. split; [done|].
  rewrite Pos2Z.inj_mul in Hb. lia.
Qed.

(** *** Scaled error bounds

    With every finite value written as an integer multiple of
    [2^-1074], the half-unit bounds above become inequalities between
    integers. *)

Lemma pow2_pos (k : Z) : 0 ≤ k → 0 < 2 ^ k.
Proof. intros. apply Z.pow_pos_nonneg; lia. Qed.

Lemma div_scaled (n t : Z) :
  0 < n < 2 ^ 53 → 0 < t < 2 ^ 53 →
  ∃ (m : positive) (e : Z),
    div (of_Z n) (of_Z t) = S754_finite false m e
    ∧ 2 ^ 52 ≤ Zpos m < 2 ^ 53
    ∧ -105 ≤ e ≤ 1
    ∧ 2 * Z.abs (Zpos m * 2 ^ (e + 1074) * t - n * scale)
      ≤ 2 ^ (e + 1074) * t.
Proof.
  intros Hn Ht.
  destruct (of_Z_safe n Hn) as (m1 & e1 & -> & _ & Hm1 & He1 & Hv1).
  destruct (of_Z_safe t Ht) as (m2 & e2 & -> & _ & Hm2 & He2 & Hv2).
  destruct (div_nearest false false m1 m2 e1 e2 Hm1 Hm2 ltac:(lia))
    as (m & j & -> & Hj & Hm & Hb).
  exists m, (e1 - e2 - 53 + j). cbn [xorb].
  split; [done|]. split; [done|]. split; [lia|].
  rewrite Hv1, Hv2 in Hb. unfold scale.
  replace (e1 - e2 - 53 + j + 1074) with (j + - e2 + (1074 + e1 - 53)) by lia.
  replace 1074 with (- e1 + 53 + (1074 + e1 - 53)) at 2 by lia.
  rewrite !Z.pow_add_r by lia.
  pose proof (pow2_pos j ltac:(lia)). pose proof (pow2_pos (- e2) ltac:(lia)).
  pose proof (pow2_pos (- e1) ltac:(lia)).
  pose proof (pow2_pos (1074 + e1 - 53) ltac:(lia)).
  set (J := 2 ^ j) in *. set (B := 2 ^ (- e2)) in *. set (A := 2 ^ (- e1)) in *.
  set (S := 2 ^ (1074 + e1 - 53)) in *. set (C := 2 ^ 53) in *.
  replace (Zpos m * (J * B * S) * t - n * (A * C * S))
    with ((Zpos m * J * (t * B) - n * A * C) * S) by ring.
  replace (J * B * S * t) with (J * (t * B) * S) by ring.
  rewrite Z.abs_mul, (Z.abs_eq S) by lia.
  rewrite Z.mul_assoc. apply Z.mul_le_mono_nonneg_r; [lia|done].
Qed.

Lemma of_Z_100 : of_Z 100 = S754_finite false 7036874417766400 (-46).
Proof. reflexivity. Qed.

Lemma mul100_scaled (sx : bool) (m : positive) (e : Z) :
  2 ^ 52 ≤ Zpos m < 2 ^ 53 → -200 ≤ e ≤ 100 →
  ∃ (b : positive) (eb : Z),
    mul (S754_finite sx m e) (of_Z 100) = S754_finite sx b eb
    ∧ 2 ^ 52 ≤ Zpos b < 2 ^ 53
    ∧ e ≤ eb ≤ e + 8
    ∧ 2 * Z.abs (Zpos b * 2 ^ (eb + 1074) - 100 * (Zpos m * 2 ^ (e + 1074)))
      ≤ 2 ^ (eb + 1074).
Proof.
  intros Hm He. rewrite of_Z_100.
  destruct (mul_nearest sx false m 7036874417766400 e (-46) Hm ltac:(simpl; lia) ltac:(lia))
    as (b & j & -> & Hj & Hb & Hbound).
  exists b, (e + -46 + j). rewrite xorb_false_r.
  split; [done|]. split; [done|]. split; [lia|].
  replace (e + -46 + j + 1074) with (j + (e - 46 + 1074)) by lia.
  replace (e + 1074) with (46 + (e - 46 + 1074)) by lia.
  rewrite (Z.pow_add_r 2 j), (Z.pow_add_r 2 46) by lia.
  pose proof (pow2_pos j ltac:(lia)).
  pose proof (pow2_pos (e - 46 + 1074) ltac:(lia)).
  change (Zpos 7036874417766400) with (100 * 2 ^ 46) in Hbound.
  set (J := 2 ^ j) in *. set (S := 2 ^ (e - 46 + 1074)) in *.
  set (C := 2 ^ 46) in *.
  replace (Zpos b * (J * S) - 100 * (Zpos m * (C * S)))
    with ((Zpos b * J - Zpos m * (100 * C)) * S) by ring.
  rewrite Z.abs_mul, (Z.abs_eq S) by lia.
  rewrite Z.mul_assoc. apply Z.mul_le_mono_nonneg_r; [lia|done].
Qed.

Lemma round_Z_scaled (b : positive) (eb : Z) :
  -1074 ≤ eb →
  round_Z false b eb = (2 * (Zpos b * 2 ^ (eb + 1074)) + scale) / (2 * scale).
Proof.
  intros He. unfold round_Z, scale. cbn [cond_Zopp].
  destruct eb as [|p|p].
  - change (2 ^ 0) with 1. change (0 + 1074) with 1074.
    pose proof (pow2_pos 1074 ltac:(lia)). set (W := 2 ^ 1074) in *.
    replace (2 * (Zpos b * W) + W) with ((2 * Zpos b + 1) * W) by ring.
    rewrite Z.div_mul_cancel_r by lia.
    apply Z.div_unique with (r := 1); lia.
  - rewrite Z.pow_add_r by lia.
    pose proof (pow2_pos 1074 ltac:(lia)). pose proof (pow2_pos (Zpos p) ltac:(lia)).
    set (W := 2 ^ 1074) in *. set (E := 2 ^ Zpos p) in *.
    replace (2 * (Zpos b * (E * W)) + W) with ((2 * (Zpos b * E) + 1) * W) by ring.
    rewrite Z.div_mul_cancel_r by lia.
    apply Z.div_unique with (r := 1); lia.
  - assert (HW : 2 ^ 1074 = 2 ^ Zpos p * 2 ^ (Z.neg p + 1074)).
    { rewrite <- Z.pow_add_r by lia. f_equal. lia. }
    rewrite HW, (Z.pow_add_r 2 (Zpos p) 1) by lia. change (2 ^ 1) with 2.
    pose proof (pow2_pos (Z.neg p + 1074) ltac:(lia)).
    pose proof (pow2_pos (Zpos p) ltac:(lia)).
    set (U := 2 ^ (Z.neg p + 1074)) in *. set (E := 2 ^ Zpos p) in *.
    replace (2 * (Zpos b * U) + E * U) with ((2 * Zpos b + E) * U) by ring.
    replace (2 * (E * U)) with (E * 2 * U) by ring.
    rewrite Z.div_mul_cancel_r by lia. reflexivity.
Qed.
End JSFacts.

Section NumberFacts.
Import JS JSFacts.
Local Open Scope Z_scope.

Lemma of_Z_truthy (k : Z) : 0 < k < 2 ^ 53 → truthy (of_Z k) = true.
Proof.
  intros Hk. destruct (of_Z_safe k Hk) as (m & e & -> & _). reflexivity.
Qed.

Lemma percent_zero (t : Z) : 0 < t < 2 ^ 53 → percent 0 t = of_Z 0.
Proof.
  intros Ht. unfold percent.
  destruct (of_Z_safe t Ht) as (m & e & -> & _). reflexivity.
Qed.

(** [Math.round((n / t) * 100) || 0] is an integer nearest to
    [100 * n / t]. *)
Lemma percent_nearest (n t : Z) :
  0 ≤ n < 2 ^ 44 → 0 < t < 2 ^ 53 →
  ∃ k : Z, percent n t = of_Z k ∧ Z.abs (2 * t * k - 200 * n) ≤ t.
Proof.
  intros Hn Ht.
  destruct (Z.eq_dec n 0) as [->|Hn0].
  { exists 0. split; [by apply percent_zero|lia]. }
  destruct (div_scaled n t ltac:(lia) Ht) as (m & e & Hdiv & Hm & He & HD).
  destruct (mul100_scaled false m e Hm ltac:(lia)) as (b & eb & Hmul & Hb & Heb & HM).
  unfold percent. rewrite Hdiv, Hmul. unfold Math_round.
  rewrite round_Z_scaled by lia.
  pose proof (pow2_pos (e + 1074) ltac:(lia)) as Hu1.
  pose proof (pow2_pos (eb + 1074) ltac:(lia)) as Hu2.
  assert (HW : 0 < scale) by (apply pow2_pos; lia).
  set (u1 := 2 ^ (e + 1074)) in *. set (u2 := 2 ^ (eb + 1074)) in *.
  set (W := scale) in *.
  set (k := (2 * (Zpos b * u2) + W) / (2 * W)).
  pose proof (Z.div_mod (2 * (Zpos b * u2) + W) (2 * W) ltac:(lia)) as Hk.
  pose proof (Z.mod_pos_bound (2 * (Zpos b * u2) + W) (2 * W) ltac:(lia)) as Hr.
  fold k in Hk. set (r := (2 * (Zpos b * u2) + W) mod (2 * W)) in *.
  (* everything as multiples of [t] *)
  assert (Hc1 : 0 < u1 * t) by (apply Z.mul_pos_pos; lia).
  assert (Hc2 : 0 < u2 * t) by (apply Z.mul_pos_pos; lia).
  assert (HT : 0 < W * t) by (apply Z.mul_pos_pos; lia).
  assert (F1 : 2 ^ 52 * (u1 * t) ≤ Zpos m * (u1 * t))
    by (apply Z.mul_le_mono_nonneg_r; lia).
  assert (F3 : 2 ^ 52 * (u2 * t) ≤ Zpos b * (u2 * t))
    by (apply Z.mul_le_mono_nonneg_r; lia).
  assert (F2 : 2 * Z.abs (Zpos m * (u1 * t) - n * W) ≤ u1 * t).
  { replace (Zpos m * (u1 * t)) with (Zpos m * u1 * t) by ring. done. }
  assert (F4 : 2 * Z.abs (Zpos b * (u2 * t) - 100 * (Zpos m * (u1 * t))) ≤ u2 * t).
  { replace (Zpos b * (u2 * t) - 100 * (Zpos m * (u1 * t)))
      with ((Zpos b * u2 - 100 * (Zpos m * u1)) * t) by ring.
    rewrite Z.abs_mul, (Z.abs_eq t) by lia.
    rewrite Z.mul_assoc. apply Z.mul_le_mono_nonneg_r; [lia|done]. }
  assert (F5 : 2 * (Zpos b * (u2 * t)) + W * t = 2 * (W * t * k) + r * t).
  { replace (2 * (Zpos b * (u2 * t)) + W * t)
      with ((2 * (Zpos b * u2) + W) * t) by ring.
    rewrite Hk. ring. }
  assert (F5' : 0 ≤ r * t < 2 * (W * t)).
  { split; [apply Z.mul_nonneg_nonneg; lia|].
    replace (2 * (W * t)) with (2 * W * t) by ring.
    apply Z.mul_lt_mono_pos_r; lia. }
  assert (F6 : W ≤ n * W ≤ (2 ^ 44 - 1) * W).
  { split.
    - replace W with (1 * W) at 1 by ring. apply Z.mul_le_mono_nonneg_r; lia.
    - apply Z.mul_le_mono_nonneg_r; lia. }
  assert (Hk0 : 0 ≤ k).
  { apply Z.div_pos; [|lia].
    assert (0 < Zpos b * u2) by (apply Z.mul_pos_pos; lia). lia. }
  assert (Hgoal : Z.abs (2 * t * k - 200 * n) ≤ t).
  { destruct (Z_le_gt_dec (Z.abs (2 * t * k - 200 * n)) t) as [|Hbad]; [done|exfalso].
    assert (Hbad' : W * t + W ≤ 2 * (W * t * k) - 200 * (n * W)
                    ∨ W * t + W ≤ 200 * (n * W) - 2 * (W * t * k)).
    { assert (t + 1 ≤ 2 * t * k - 200 * n ∨ t + 1 ≤ 200 * n - 2 * t * k) as [H|H] by lia;
        [left|right].
      - replace (2 * (W * t * k) - 200 * (n * W)) with (W * (2 * t * k - 200 * n)) by ring.
        replace (W * t + W) with (W * (t + 1)) by ring.
        apply Z.mul_le_mono_nonneg_l; lia.
      - replace (200 * (n * W) - 2 * (W * t * k)) with (W * (200 * n - 2 * t * k)) by ring.
        replace (W * t + W) with (W * (t + 1)) by ring.
        apply Z.mul_le_mono_nonneg_l; lia. }
    clear Hbad HD HM Hk Hr Hdiv Hmul.
    generalize dependent (Zpos m * (u1 * t)). intros a1.
    generalize dependent (Zpos b * (u2 * t)). intros a2.
    generalize dependent (W * t * k). intros K.
    generalize dependent (r * t). intros R.
    generalize dependent (n * W). intros N.
    generalize dependent (u1 * t). intros c1.
    generalize dependent (u2 * t). intros c2.
    generalize dependent (W * t). intros T.
    intros. clear - HW F1 F2 F3 F4 F5 F5' F6 Hbad' Hc1 Hc2 HT.
    change (2 ^ 52) with 4503599627370496 in *.
    change (2 ^ 44 - 1) with 17592186044415 in *.
    lia. }
  exists k. split; [|done].
  destruct (Z.eqb_spec k 0) as [->|Hk1]; [reflexivity|].
  unfold or. rewrite of_Z_truthy; [done|].
  split; [lia|]. 
  assert (Hup : 2 * t * k ≤ 200 * n + t) by lia.
  assert (Hk2 : t * (2 * k) ≤ t * (200 * n + 1)).
  { replace (t * (2 * k)) with (2 * t * k) by ring.
    assert (200 * n ≤ t * (200 * n)).
    { replace (200 * n) with (1 * (200 * n)) at 1 by ring.
      apply Z.mul_le_mono_nonneg_r; lia. }
    lia. }
  apply Z.mul_le_mono_pos_l in Hk2; [|lia].
  change (2 ^ 44) with 17592186044416 in Hn.
  change (2 ^ 53) with 9007199254740992. lia.
Qed.


Lemma ge_half_finite (m : positive) (e : Z) :
  2 ^ 52 ≤ Zpos m →
  ge (S754_finite false m e) half = true ↔ -53 ≤ e.
Proof.
  intros Hm. unfold ge, half. cbn [SFcompare].
  destruct (Z.compare_spec e (-53)) as [->|Hlt|Hgt].
  - rewrite Pos.compare_cont_spec. cbn [Pos.switch_Eq].
    destruct (Pos.compare_spec m 4503599627370496) as [Heq|Hlt|Hgt]; try done.
    apply Pos2Z.pos_lt_pos in Hlt.
    change (Zpos 4503599627370496) with (2 ^ 52) in Hlt. lia.
  - split; [done|lia].
  - split; [lia|done].
Qed.

(** On safe integers the test [score / outOf >= 0.5] decides
    [outOf <= 2 * score] exactly. *)
Lemma div_ge_half_pos (s o : Z) :
  0 < s < 2 ^ 53 → 0 < o < 2 ^ 53 →
  ge (div (of_Z s) (of_Z o)) half = true ↔ o ≤ 2 * s.
Proof.
  intros Hs Ho.
  destruct (of_Z_safe s Hs) as (m1 & e1 & -> & _ & Hm1 & He1 & Hv1).
  destruct (of_Z_safe o Ho) as (m2 & e2 & -> & _ & Hm2 & He2 & Hv2).
  destruct (div_nearest false false m1 m2 e1 e2 Hm1 Hm2 ltac:(lia))
    as (m & j & -> & Hj & Hm & Hb).
  cbn [xorb]. rewrite ge_half_finite by lia.
  rewrite Hv1, Hv2 in Hb.
  pose proof (pow2_pos j ltac:(lia)) as HJ.
  pose proof (pow2_pos (- e2) ltac:(lia)) as HB.
  pose proof (pow2_pos (- e1) ltac:(lia)) as HA.
  assert (HJB : 2 ^ (j - e2) = 2 ^ j * 2 ^ (- e2)).
  { replace (j - e2) with (j + - e2) by lia. apply Z.pow_add_r; lia. }
  set (J := 2 ^ j) in *. set (B := 2 ^ (- e2)) in *. set (A := 2 ^ (- e1)) in *.
  set (X := J * B) in *.
  assert (HX : 0 < X) by (apply Z.mul_pos_pos; lia).
  assert (HXo : 0 < X * o) by (apply Z.mul_pos_pos; lia).
  assert (HsX : 0 < s * X) by (apply Z.mul_pos_pos; lia).
  replace (Zpos m * J * (o * B) - s * A * 2 ^ 53)
    with (Zpos m * (X * o) - 2 ^ 53 * (s * A)) in Hb by (subst X; ring).
  replace (J * (o * B)) with (X * o) in Hb by (subst X; ring).
  assert (Hm' : 2 ^ 52 * (X * o) ≤ Zpos m * (X * o) ≤ (2 ^ 53 - 1) * (X * o)).
  { split; apply Z.mul_le_mono_nonneg_r; lia. }
  change (2 ^ 52) with 4503599627370496 in *.
  change (2 ^ 53) with 9007199254740992 in *.
  split.
  - intros He.
    assert (HAX : A ≤ X).
    { subst A X. rewrite <- HJB. apply Z.pow_le_mono_r; lia. }
    assert (HsA : s * A ≤ s * X) by (apply Z.mul_le_mono_nonneg_l; lia).
    destruct (Z_le_gt_dec o (2 * s)) as [|Hbad]; [done|exfalso].
    assert (Ho' : X * (2 * s + 1) ≤ X * o) by (apply Z.mul_le_mono_nonneg_l; lia).
    assert (Hs' : s * X ≤ 4503599627370495 * X)
      by (apply Z.mul_le_mono_nonneg_r; lia).
    lia.
  - intros Hos.
    destruct (Z_le_gt_dec (-53) (e1 - e2 - 53 + j)) as [|Hbad]; [done|exfalso].
    assert (HAX : 2 * X ≤ A).
    { subst A X. rewrite <- HJB, <- Z.pow_succ_r by lia.
      apply Z.pow_le_mono_r; lia. }
    assert (HsA : s * (2 * X) ≤ s * A) by (apply Z.mul_le_mono_nonneg_l; lia).
    assert (Ho' : X * o ≤ X * (2 * s)) by (apply Z.mul_le_mono_nonneg_l; lia).
    lia.
Qed.

Lemma div_ge_half (s o : Z) :
  - 2 ^ 53 < s < 2 ^ 53 → 0 < o < 2 ^ 53 →
  ge (div (of_Z s) (of_Z o)) half = true ↔ o ≤ 2 * s.
Proof.
  intros Hs Ho.
  destruct (Z.lt_trichotomy s 0) as [Hneg|[->|Hpos]].
  - destruct (of_Z_safe (- s) ltac:(lia)) as (m1 & e1 & _ & Hs1 & Hm1 & He1 & _).
    rewrite Z.opp_involutive in Hs1. rewrite Hs1.
    destruct (of_Z_safe o Ho) as (m2 & e2 & -> & _ & Hm2 & He2 & _).
    destruct (div_nearest true false m1 m2 e1 e2 Hm1 Hm2 ltac:(lia))
      as (m & j & -> & _).
    cbn. split; [done|lia].
  - destruct (of_Z_safe o Ho) as (m2 & e2 & -> & _).
    cbn. split; [done|lia].
  - apply div_ge_half_pos; lia.
Qed.
End NumberFacts.

(** ** Grading *)

Lemma forEach_grade_count (pre questions : list Question) (answers : gmap nat Z) (acc : Z) :
  forEach_grade questions (length pre) answers acc =
  (acc + Z.of_nat (length (filter (λ i, answered_correctly (pre ++ questions) answers i = true)
                             (seq (length pre) (length questions)))))%Z.
Proof.
  revert pre acc. induction questions as [|qn rest IH]; intros pre acc.
  - simpl. lia.
  - cbn [forEach_grade length seq].
    replace (S (length pre)) with (length (pre ++ [qn])) by (rewrite length_app; simpl; lia).
    rewrite IH. rewrite <- app_assoc. cbn [app].
    rewrite filter_cons.
    assert (Hq : answered_correctly (pre ++ qn :: rest) answers (length pre)
                 = bool_decide (answers !! length pre = Some (a qn))).
    { unfold answered_correctly. by rewrite list_lookup_middle. }
    rewrite length_app. cbn [length]. rewrite Nat.add_1_r.
    destruct (decide _) as [Ht|Hf].
    + rewrite Hq in Ht. rewrite Ht. cbn [length]. lia.
    + rewrite Hq in Hf. destruct (bool_decide _); [done|]. lia.
Qed.

Lemma filter_length_all {A} (P : A → Prop) `{!∀ x, Decision (P x)} (l : list A) :
  (∀ x, x ∈ l → P x) → length (filter P l) = length l.
Proof.
  induction l as [|x l IH]; intros Hall; [done|].
  rewrite filter_cons_True by (apply Hall; left).
  simpl. f_equal. apply IH. intros y Hy. apply Hall. by right.
Qed.

Lemma filter_length_none {A} (P : A → Prop) `{!∀ x, Decision (P x)} (l : list A) :
  (∀ x, x ∈ l → ¬ P x) → length (filter P l) = 0.
Proof.
  induction l as [|x l IH]; intros Hall; [done|].
  rewrite filter_cons_False by (apply Hall; left).
  apply IH. intros y Hy. apply Hall. by right.
Qed.

(** C4. Grading hands over [outOf = length quiz] and, as [score], the
    number of indices [i] whose recorded answer is the correct index of
    question [i]; a question without a recorded answer is not counted.
    When every answer is the correct one the score equals [outOf], and with
    no answers at all the score is 0. *)
Theorem grade_counts_correct_answers (questions : list Question) (answers : gmap nat Z) :
  grade questions answers =
    (Z.of_nat (length (filter (λ i, answered_correctly questions answers i = true)
                         (seq 0 (length questions)))),
     Z.of_nat (length questions))
  ∧ (∀ i, answers !! i = None → answered_correctly questions answers i = false)
  ∧ ((∀ i qn, questions !! i = Some qn → answers !! i = Some (a qn)) →
     (grade questions answers).1 = (grade questions answers).2)
  ∧ (grade questions ∅).1 = 0%Z.
Proof.
  assert (Hg : ∀ ans, grade questions ans =
    (Z.of_nat (length (filter (λ i, answered_correctly questions ans i = true)
                         (seq 0 (length questions)))),
     Z.of_nat (length questions))).
  { intros ans. unfold grade. f_equal.
    pose proof (forEach_grade_count [] questions ans 0) as H.
    simpl in H. rewrite H. lia. }
  split; [apply Hg|]. split.
  - intros i Hi. unfold answered_correctly. rewrite Hi.
    destruct (questions !! i); [by rewrite bool_decide_eq_false|done].
  - split.
    + intros Hall. rewrite Hg. cbn [fst snd]. f_equal.
      rewrite filter_length_all; [apply length_seq|].
      intros i Hi. apply elem_of_seq in Hi.
      unfold answered_correctly.
      destruct (questions !! i) as [qn|] eqn:Hq.
      * apply bool_decide_eq_true. by apply Hall.
      * apply lookup_ge_None in Hq. lia.
    + rewrite Hg. cbn [fst].
      rewrite filter_length_none; [done|].
      intros i _. unfold answered_correctly.
      destruct (questions !! i); [|done].
      rewrite lookup_empty. by rewrite bool_decide_eq_false_2.
Qed.

(** ** markComplete *)

(** C5. [markComplete] is idempotent: doing it twice gives the record that
    doing it once gives.  It puts the lesson among the completed ones, and
    it leaves the record as it is when the lesson is completed already. *)
Theorem markComplete_idempotent (lessonId : string) (p : Progress) :
  exec (markComplete lessonId ;; markComplete lessonId) p = exec (markComplete lessonId) p
  ∧ done (exec (markComplete lessonId) p) lessonId = true
  ∧ (done p lessonId = true → exec (markComplete lessonId) p = p).
Proof.
  destruct p as [cl qs]. unfold exec, markComplete, bind, setProgress, done. cbn.
  split; [by rewrite insert_insert_eq|].
  split; [by rewrite lookup_insert_eq|].
  intros H. f_equal. apply insert_id.
  destruct (cl !! lessonId) as [[]|]; done.
Qed.

(** ** Frame *)

(** C10. [markComplete lessonId] leaves [quizScores] and every other entry
    of [completedLessons] alone; [handleQuizSubmit lessonId score outOf]
    leaves the entries of both maps for every other lesson alone; neither
    removes a key from either map. *)
Theorem progress_updates_frame (lessonId : string) (score outOf : Z) (p : Progress) :
  let p1 := exec (markComplete lessonId) p in
  let p2 := exec (handleQuizSubmit lessonId score outOf) p in
  quizScores p1 = quizScores p
  ∧ (∀ id, id ≠ lessonId → completedLessons p1 !! id = completedLessons p !! id)
  ∧ (∀ id, id ≠ lessonId → quizScores p2 !! id = quizScores p !! id)
  ∧ (∀ id, id ≠ lessonId → completedLessons p2 !! id = completedLessons p !! id)
  ∧ dom (completedLessons p) ⊆ dom (completedLessons p1)
  ∧ dom (completedLessons p) ⊆ dom (completedLessons p2)
  ∧ dom (quizScores p) ⊆ dom (quizScores p1)
  ∧ dom (quizScores p) ⊆ dom (quizScores p2).
Proof.
  destruct p as [cl qs].
  unfold exec, handleQuizSubmit, markComplete, bind, setProgress, ret. cbn.
  destruct (JS.ge _ _); cbn;
    repeat split; intros; rewrite ?lookup_insert_ne by done; try done;
    rewrite ?dom_insert_L; set_solver.
Qed.

(** ** Certificate on an empty course *)

Lemma fold_left_total (ms : list Module_) (acc : Z) :
  fold_left (λ s m, (s + Z.of_nat (length (lessons m)))%Z) ms acc
  = (acc + Z.of_nat (length (flat_map (λ m, map lesson_id (lessons m)) ms)))%Z.
Proof.
  revert acc. induction ms as [|m ms IH]; intros acc; cbn [fold_left flat_map].
  - simpl. lia.
  - rewrite IH, length_app, length_map. lia.
Qed.

Lemma totalLessons_length (course : Course) :
  totalLessons course = Z.of_nat (length (lessonsOf course)).
Proof. unfold totalLessons, lessonsOf. rewrite fold_left_total. lia. Qed.

Lemma done_reads_done (p : Progress) (id : string) :
  done p id = true → reads_done p id = true.
Proof.
  unfold done, reads_done. by destruct (completedLessons p !! id).
Qed.

Lemma reads_done_own (p : Progress) (id : string) :
  id ∉ Object_prototype_names → reads_done p id = done p id.
Proof.
  intros Hid. unfold done, reads_done.
  destruct (completedLessons p !! id); [done|]. by apply bool_decide_eq_false_2.
Qed.

Lemma allDone_iff (course : Course) (p : Progress) :
  allDone course p = true ↔ ∀ id, id ∈ lessonsOf course → reads_done p id = true.
Proof.
  unfold allDone, lessonsOf.
  rewrite forallb_forall. split.
  - intros H id Hid. apply list_elem_of_In, in_flat_map in Hid.
    destruct Hid as (m & Hm & Hid). apply in_map_iff in Hid.
    destruct Hid as (l & <- & Hl).
    specialize (H m Hm). rewrite forallb_forall in H. by apply H.
  - intros H m Hm. apply forallb_forall. intros l Hl. apply H.
    apply list_elem_of_In, in_flat_map. exists m. split; [done|].
    apply in_map_iff. by exists l.
Qed.

(** When no lesson id is a name of [Object.prototype], the check of the
    code is the eligibility of the specification. *)
Lemma allDone_eligible (course : Course) (p : Progress) :
  (∀ id, id ∈ lessonsOf course → id ∉ Object_prototype_names) →
  allDone course p = true ↔ isCertificateEligible course p.
Proof.
  intros Hown. rewrite allDone_iff. unfold isCertificateEligible.
  split; intros H id Hid; specialize (H id Hid).
  - by rewrite <- reads_done_own by auto.
  - by apply done_reads_done.
Qed.

(** C9. On a course without any lesson the certificate check [allDone]
    holds for every progress record. *)
Theorem allDone_empty_course (course : Course) (p : Progress) :
  totalLessons course = 0%Z → allDone course p = true.
Proof.
  intros H. apply allDone_iff. intros id Hid.
  rewrite totalLessons_length in H.
  destruct (lessonsOf course); [by apply elem_of_nil in Hid|simpl in H; lia].
Qed.

Lemma allDone_empty_course_witness :
  totalLessons EMPTY_COURSE = 0%Z ∧ allDone EMPTY_COURSE staleProgress = true.
Proof. split; [reflexivity|apply allDone_empty_course; reflexivity]. Defined.

Section PersistenceFacts.
Variable JSON_parse : string → result json.
Hypothesis parse_empty_throws : ∃ e, JSON_parse "" = Throw e.

(** C8. [loadProgress] always returns a value: the default record when
    the storage refuses access, when the key is absent and when the stored
    text does not parse; the parsed value otherwise.  ([JSON.parse] rejects
    the empty text.) *)
Theorem loadProgress_never_fails (st : Storage) :
  match st with
  | Blocked => loadProgress JSON_parse st = defaultProgress
  | Bucket items =>
      match items !! STORAGE_KEY with
      | None => loadProgress JSON_parse st = defaultProgress
      | Some raw =>
          match JSON_parse raw with
          | Ok v => loadProgress JSON_parse st = v
          | Throw _ => loadProgress JSON_parse st = defaultProgress
          end
      end
  end.
Proof.
  destruct st as [|items]; [reflexivity|].
  unfold loadProgress. cbn [getItem result_bind].
  destruct (items !! STORAGE_KEY) as [raw|]; [|reflexivity].
  destruct raw as [|c s].
  - destruct parse_empty_throws as [e ->]. reflexivity.
  - cbn [string_truthy]. destruct (JSON_parse (String c s)); reflexivity.
Qed.
End PersistenceFacts.

Lemma loadProgress_never_fails_witness :
  (∃ e, parse_null_only "" = Throw e)
  ∧ loadProgress parse_null_only (Bucket {[ STORAGE_KEY := "null" ]}) = JNull
  ∧ loadProgress parse_null_only (Bucket {[ STORAGE_KEY := "{oops" ]}) = defaultProgress.
Proof.
  assert (H : ∃ e, parse_null_only "" = Throw e) by (by eexists).
  split; [exact H|]. split.
  - exact (loadProgress_never_fails parse_null_only H (Bucket {[ STORAGE_KEY := "null" ]})).
  - exact (loadProgress_never_fails parse_null_only H (Bucket {[ STORAGE_KEY := "{oops" ]})).
Defined.

(** ** Admin *)

Lemma module_id_at_inj (t1 t2 : N) : module_id_at t1 = module_id_at t2 → t1 = t2.
Proof.
  unfold module_id_at. intros H. 
  apply (inj (String.app "m_")) in H. by apply (inj pretty) in H.
Qed.

(** C7.  With an empty title [add] changes nothing.  With a
    title it appends exactly one module at the end, carrying that title, no
    lessons, and the id [m_] followed by the clock reading.  That id is not
    compared with the ids in the course: it differs from every id minted
    at another clock reading, and from every existing id that no click at
    this reading or later has minted. *)
Theorem add_appends_module (now : N) (course : Course) (title : string) :
  title ≠ "" →
  add now course "" = (course, "")
  ∧ modules (add now course title).1 =
      modules course ++
        [ {| module_id := module_id_at now; module_title := title; lessons := [] |} ]
  ∧ (∀ m, m ∈ modules course →
       (∀ t0, module_id m = module_id_at t0 → (t0 < now)%N) →
       module_id m ≠ module_id_at now)
  ∧ (∀ t0, t0 ≠ now → module_id_at t0 ≠ module_id_at now).
Proof.
  intros Ht. split; [reflexivity|]. split.
  - unfold add. destruct title; [done|reflexivity].
  - split.
    + intros m _ Hm Heq. specialize (Hm now Heq). lia.
    + intros t0 Hne Heq. by apply module_id_at_inj in Heq.
Qed.

Lemma add_appends_module_witness :
  "Bonus" ≠ "" ∧
  modules (add 1730000000000 SAMPLE_COURSE "Bonus").1 =
    modules SAMPLE_COURSE ++
      [ {| module_id := "m_1730000000000"; module_title := "Bonus"; lessons := [] |} ].
Proof.
  assert (H : "Bonus" ≠ "") by done.
  split; [exact H|].
  exact (proj1 (proj2 (add_appends_module 1730000000000 SAMPLE_COURSE "Bonus" H))).
Defined.

(** Two additions at one clock reading carry the same id. *)
Lemma add_same_clock_reading_duplicates_id :
  let now := 1730000000000%N in
  let c1 := (add now SAMPLE_COURSE "Bonus").1 in
  let c2 := (add now c1 "Extras").1 in
  "Extras" ≠ ""
  ∧ NoDup (map module_id (modules c1))
  ∧ last (map module_id (modules c2)) = Some (module_id_at now)
  ∧ module_id_at now ∈ map module_id (modules c1)
  ∧ ¬ NoDup (map module_id (modules c2)).
Proof.
  cbn zeta. split; [done|]. split.
  { refine (bool_decide_unpack (NoDup _) _). vm_compute. exact I. }
  split; [vm_compute; reflexivity|]. split.
  { vm_compute. do 2 right. left. }
  intros Hnd.
  apply (bool_decide_pack (NoDup _)) in Hnd. vm_compute in Hnd. exact Hnd.
Qed.

Section PercentFacts.
Import JS JSFacts.
Local Open Scope Z_scope.

Lemma of_Z_inj_safe (x y : Z) :
  0 ≤ x < 2 ^ 53 → 0 ≤ y < 2 ^ 53 → of_Z x = of_Z y → x = y.
Proof.
  intros Hx Hy Heq.
  destruct (Z.eq_dec x 0) as [->|Hx0], (Z.eq_dec y 0) as [->|Hy0]; [done| | |].
  - destruct (of_Z_safe y ltac:(lia)) as (m & e & Hm & _). rewrite Hm in Heq. discriminate.
  - destruct (of_Z_safe x ltac:(lia)) as (m & e & Hm & _). rewrite Hm in Heq. discriminate.
  - destruct (of_Z_safe x ltac:(lia)) as (m & e & Hm & _ & _ & He & Hv).
    destruct (of_Z_safe y ltac:(lia)) as (m' & e' & Hm' & _ & _ & He' & Hv').
    rewrite Hm, Hm' in Heq. injection Heq as -> ->.
    rewrite Hv in Hv'.
    apply Z.mul_reg_r in Hv'; [done|].
    assert (0 < 2 ^ (- e')) by (apply pow2_pos; lia). lia.
Qed.

Lemma completedCount_split (course : Course) (progress : Progress) :
  completedCount progress =
    Z.of_nat (size (dom (completedLessons progress)
                      ∩ list_to_set (C := gset string) (lessonsOf course)))
    + Z.of_nat (size (dom (completedLessons progress)
                        ∖ list_to_set (C := gset string) (lessonsOf course))).
Proof.
  unfold completedCount. rewrite <- size_dom.
  set (D := dom (completedLessons progress)).
  set (L := list_to_set (lessonsOf course) : gset string).
  assert (Hdisj : D ∩ L ## D ∖ L).
  { intros x Hin Hout. apply elem_of_intersection in Hin as [_ Hin].
    apply elem_of_difference in Hout as [_ Hout]. done. }
  rewrite <- Nat2Z.inj_add, <- size_union by done.
  do 2 f_equal. apply set_eq. intros x.
  rewrite elem_of_union, elem_of_intersection, elem_of_difference.
  destruct (decide (x ∈ L)); tauto.
Qed.

Lemma completed_within_course (course : Course) (progress : Progress) :
  NoDup (lessonsOf course) →
  (∀ id, id ∈ lessonsOf course → id ∉ Object_prototype_names) →
  (∀ id v, completedLessons progress !! id = Some v →
           v = true ∧ id ∈ lessonsOf course) →
  completedCount progress ≤ totalLessons course
  ∧ (completedCount progress = totalLessons course ↔ allDone course progress = true).
Proof.
  intros Hnd Hown Hwf. unfold completedCount.
  rewrite totalLessons_length, <- size_dom.
  set (D := dom (completedLessons progress)).
  set (L := list_to_set (lessonsOf course) : gset string).
  assert (HL : size L = length (lessonsOf course)) by (by apply size_list_to_set).
  assert (HDL : D ⊆ L).
  { intros id Hid. apply elem_of_dom in Hid as [v Hv].
    apply elem_of_list_to_set. by apply (Hwf id v). }
  rewrite <- HL. split.
  - apply inj_le. by apply subseteq_size.
  - rewrite (allDone_eligible course progress Hown). split.
    + intros Hsz. apply Nat2Z.inj in Hsz.
      assert (HLD : L ⊆ D).
      { apply set_subseteq_size_eq in HDL; [|lia].
        by rewrite HDL. }
      intros id Hid. unfold done.
      assert (Hin : id ∈ D) by (apply HLD, elem_of_list_to_set, Hid).
      apply elem_of_dom in Hin as [v Hv]. rewrite Hv.
      by destruct (Hwf id v Hv).
    + intros Hel. f_equal. apply Nat.le_antisymm; [by apply subseteq_size|].
      apply subseteq_size. intros id Hid.
      apply elem_of_list_to_set in Hid. specialize (Hel id Hid).
      unfold done in Hel. apply elem_of_dom.
      destruct (completedLessons progress !! id); [done|discriminate].
Qed.
End PercentFacts.

(** C1.  The percentage is an integer nearest to
    [100 * n / totalLessons], where [n] counts every id stored in
    [completedLessons]: the ids that occur in the course and the ids that
    do not. *)
Theorem pct_counts_every_stored_id (course : Course) (progress : Progress) :
  (0 < totalLessons course < 2 ^ 53)%Z →
  (completedCount progress < 2 ^ 44)%Z →
  ∃ k : Z,
    pct course progress = JS.of_Z k
    ∧ let inside := size (dom (completedLessons progress)
                            ∩ list_to_set (C := gset string) (lessonsOf course)) in
      let outside := size (dom (completedLessons progress)
                             ∖ list_to_set (C := gset string) (lessonsOf course)) in
      (Z.abs (2 * totalLessons course * k
              - 200 * (Z.of_nat inside + Z.of_nat outside))
       ≤ totalLessons course)%Z.
Proof.
  intros Ht Hc.
  destruct (percent_nearest (completedCount progress) (totalLessons course))
    as (k & Hk & Hb); [unfold completedCount in *; lia|done|].
  exists k. split; [done|]. cbn zeta.
  by rewrite <- completedCount_split.
Qed.

Lemma pct_counts_every_stored_id_witness :
  (0 < totalLessons SAMPLE_COURSE < 2 ^ 53)%Z
  ∧ (completedCount staleProgress < 2 ^ 44)%Z
  ∧ ∃ k : Z, pct SAMPLE_COURSE staleProgress = JS.of_Z k.
Proof.
  assert (H1 : (0 < totalLessons SAMPLE_COURSE < 2 ^ 53)%Z) by (vm_compute; split; reflexivity).
  assert (H2 : (completedCount staleProgress < 2 ^ 44)%Z) by (vm_compute; reflexivity).
  split; [exact H1|]. split; [exact H2|].
  destruct (pct_counts_every_stored_id SAMPLE_COURSE staleProgress H1 H2) as (k & Hk & _).
  exists k. exact Hk.
Defined.

(** A completed id that is no lesson of the course still counts: one stale
    id on the three-lesson sample course gives 33, where the intersection
    formula gives 0. *)
Lemma pct_counts_stale_id :
  pct SAMPLE_COURSE staleProgress = JS.of_Z 33
  ∧ completionPercent_spec SAMPLE_COURSE staleProgress = 0%Z
  ∧ pct SAMPLE_COURSE staleProgress
    ≠ JS.of_Z (completionPercent_spec SAMPLE_COURSE staleProgress).
Proof.
  assert (H1 : pct SAMPLE_COURSE staleProgress = JS.of_Z 33) by (vm_compute; reflexivity).
  assert (H2 : completionPercent_spec SAMPLE_COURSE staleProgress = 0%Z)
    by (vm_compute; reflexivity).
  split; [done|]. split; [done|]. rewrite H1, H2. vm_compute. discriminate.
Qed.

(** C2.  On a course with lessons and pairwise distinct lesson
    ids, none of them a property name of [Object.prototype], for a record
    whose completed entries are all [true] and all lessons of the course:
    the percentage is an integer between 0 and 100, it is 100 when the
    certificate check holds, and on a course of fewer than 200 lessons it
    is 100 only when the certificate check holds. *)
Theorem pct_range_and_certificate (course : Course) (progress : Progress) :
  (0 < totalLessons course < 2 ^ 44)%Z →
  NoDup (lessonsOf course) →
  (∀ id, id ∈ lessonsOf course → id ∉ Object_prototype_names) →
  (∀ id v, completedLessons progress !! id = Some v →
           v = true ∧ id ∈ lessonsOf course) →
  integer_between 0 100 (pct course progress)
  ∧ (allDone course progress = true → pct course progress = JS.of_Z 100)
  ∧ ((totalLessons course < 200)%Z →
     pct course progress = JS.of_Z 100 → allDone course progress = true).
Proof.
  intros Ht Hnd Hown Hwf.
  destruct (completed_within_course course progress Hnd Hown Hwf) as [Hle Hiff].
  assert (Hc0 : (0 ≤ completedCount progress)%Z) by (unfold completedCount; lia).
  destruct (percent_nearest (completedCount progress) (totalLessons course))
    as (k & Hk & Hb); [lia|lia|].
  fold (pct course progress) in Hk.
  set (t := totalLessons course) in *. set (c := completedCount progress) in *.
  assert (Hk100 : (0 ≤ k ≤ 100)%Z).
  { assert (H1 : (t * (2 * k) ≤ t * 201)%Z) by lia.
    assert (H2 : (t * (-1) ≤ t * (2 * k))%Z) by lia.
    apply Z.mul_le_mono_pos_l in H1, H2; lia. }
  split; [by exists k|]. split.
  - intros Hall. apply Hiff in Hall. rewrite Hk. f_equal.
    rewrite Hall in Hb.
    assert (H1 : (t * (2 * k) ≤ t * 201)%Z) by lia.
    assert (H2 : (t * 199 ≤ t * (2 * k))%Z) by lia.
    apply Z.mul_le_mono_pos_l in H1, H2; lia.
  - intros Hsmall H100. apply Hiff.
    rewrite Hk in H100. apply of_Z_inj_safe in H100; [|lia|lia].
    subst k. lia.
Qed.

Lemma pct_range_and_certificate_witness :
  integer_between 0 100 (pct SAMPLE_COURSE partialProgress).
Proof.
  refine (proj1 (pct_range_and_certificate SAMPLE_COURSE partialProgress _ _ _ _)).
  - vm_compute. split; reflexivity.
  - refine (bool_decide_unpack (NoDup (lessonsOf SAMPLE_COURSE)) _). vm_compute. exact I.
  - apply (proj1 (Forall_forall (λ id, id ∉ Object_prototype_names)
                    (lessonsOf SAMPLE_COURSE))).
    refine (bool_decide_unpack (Forall _ _) _). vm_compute. exact I.
  - intros id v Hv.
    destruct (decide (id = "m1l1")) as [->|?]; [vm_compute in Hv |- *; split; [congruence|left]|].
    destruct (decide (id = "m1l2")) as [->|?];
      [vm_compute in Hv |- *; split; [congruence|right; left]|].
    unfold partialProgress in Hv. cbn in Hv.
    rewrite lookup_insert_ne, lookup_singleton_ne in Hv by done. discriminate.
Defined.

(** A lesson whose id is a property name of [Object.prototype] reads as
    completed on a record that holds no entry for it: the sidebar ticks it
    and the certificate check passes, at 0 completed and 0 percent. *)
Lemma inherited_name_reads_as_completed :
  reads_done emptyProgress "constructor" = true
  ∧ done emptyProgress "constructor" = false
  ∧ allDone CONSTRUCTOR_COURSE emptyProgress = true
  ∧ sidebarMarks CONSTRUCTOR_COURSE emptyProgress = [true]
  ∧ completedCount emptyProgress = 0%Z
  ∧ pct CONSTRUCTOR_COURSE emptyProgress = JS.of_Z 0.
Proof. repeat split; vm_compute; reflexivity. Qed.

(** Three completed ids that are no lessons of the sample course give 100
    percent although no lesson is complete. *)
Lemma pct_hundred_without_certificate :
  (0 < totalLessons SAMPLE_COURSE)%Z
  ∧ pct SAMPLE_COURSE foreignProgress = JS.of_Z 100
  ∧ allDone SAMPLE_COURSE foreignProgress = false
  ∧ ¬ (pct SAMPLE_COURSE foreignProgress = JS.of_Z 100
       ↔ allDone SAMPLE_COURSE foreignProgress = true).
Proof.
  assert (H1 : pct SAMPLE_COURSE foreignProgress = JS.of_Z 100) by (vm_compute; reflexivity).
  assert (H2 : allDone SAMPLE_COURSE foreignProgress = false) by (vm_compute; reflexivity).
  split; [vm_compute; reflexivity|]. split; [done|]. split; [done|].
  intros [Hf _]. specialize (Hf H1). congruence.
Qed.





(** C3.  For safe integers with [outOf > 0], [handleQuizSubmit] stores
    [{ score, outOf }] under the lesson id; if [score / outOf >= 1/2], that
    is [outOf <= 2 * score], the lesson is completed afterwards; otherwise
    [completedLessons] is the map it was, so an earlier completion stays. *)
Theorem handleQuizSubmit_records_and_completes
    (lessonId : string) (score outOf : Z) (p : Progress) :
  (0 < outOf < 2 ^ 53)%Z → (- 2 ^ 53 < score < 2 ^ 53)%Z →
  let p' := exec (handleQuizSubmit lessonId score outOf) p in
  quizScores p' !! lessonId = Some {| score := score; outOf := outOf |}
  ∧ ((outOf ≤ 2 * score)%Z → done p' lessonId = true)
  ∧ ((2 * score < outOf)%Z → completedLessons p' = completedLessons p).
Proof.
  intros Ho Hs. pose proof (div_ge_half score outOf Hs Ho) as Hge.
  destruct p as [cl qs].
  unfold exec, handleQuizSubmit, markComplete, bind, setProgress, ret, done. cbn.
  destruct (JS.ge _ _) eqn:E; cbn.
  - rewrite !lookup_insert_eq. split; [done|]. split; [done|].
    intros Hlt. apply proj1 in Hge. specialize (Hge eq_refl). lia.
  - rewrite lookup_insert_eq. split; [done|]. split; [|done].
    intros Hle. apply Hge in Hle. discriminate.
Qed.

Lemma handleQuizSubmit_records_and_completes_witness :
  done (exec (handleQuizSubmit "m1l1" 1 2) emptyProgress) "m1l1" = true.
Proof.
  refine (proj1 (proj2 (handleQuizSubmit_records_and_completes
                          "m1l1" 1 2 emptyProgress _ _)) _).
  - vm_compute. split; reflexivity.
  - vm_compute. split; reflexivity.
  - vm_compute. discriminate.
Defined.

(** ** Further properties of grading *)

Lemma filter_length_eq_all {A} (P : A → Prop) `{!∀ x, Decision (P x)} (l : list A) :
  length (filter P l) = length l → ∀ x, x ∈ l → P x.
Proof.
  induction l as [|y l IH]; intros Hlen x Hx; [by apply elem_of_nil in Hx|].
  pose proof (length_filter P l) as Hle.
  rewrite filter_cons in Hlen. destruct (decide (P y)) as [Hy|Hy].
  - cbn [length] in Hlen. apply elem_of_cons in Hx as [->|Hx]; [done|].
    apply IH; [lia|done].
  - cbn [length] in Hlen. lia.
Qed.

Lemma grade_as_count (questions : list Question) (answers : gmap nat Z) :
  grade questions answers =
    (Z.of_nat (length (filter (λ i, answered_correctly questions answers i = true)
                         (seq 0 (length questions)))),
     Z.of_nat (length questions)).
Proof.
  unfold grade. f_equal.
  pose proof (forEach_grade_count [] questions answers 0) as H.
  simpl in H. rewrite H. lia.
Qed.

Lemma grade_score_range (questions : list Question) (answers : gmap nat Z) :
  (0 ≤ (grade questions answers).1 ≤ (grade questions answers).2)%Z.
Proof.
  rewrite grade_as_count. cbn [fst snd].
  pose proof (length_filter (λ i, answered_correctly questions answers i = true)
                (seq 0 (length questions))) as Hle.
  rewrite length_seq in Hle. lia.
Qed.

(** X1.  The score is never negative and never above [outOf]; it equals
    [outOf] exactly when every question has its correct index recorded. *)
Theorem grade_score_bounds (questions : list Question) (answers : gmap nat Z) :
  (0 ≤ (grade questions answers).1 ≤ (grade questions answers).2)%Z
  ∧ ((grade questions answers).1 = (grade questions answers).2
     ↔ ∀ i qn, questions !! i = Some qn → answers !! i = Some (a qn)).
Proof.
  rewrite grade_as_count. cbn [fst snd].
  set (P := λ i, answered_correctly questions answers i = true).
  pose proof (length_filter P (seq 0 (length questions))) as Hle.
  rewrite length_seq in Hle. split; [lia|]. split.
  - intros Heq i qn Hq. apply Nat2Z.inj in Heq.
    assert (Heq' : length (filter P (seq 0 (length questions)))
                   = length (seq 0 (length questions)))
      by (by rewrite length_seq).
    pose proof (filter_length_eq_all P _ Heq' i) as Hi.
    assert (Hin : i ∈ seq 0 (length questions)).
    { apply elem_of_seq. apply lookup_lt_Some in Hq. lia. }
    specialize (Hi Hin). unfold P, answered_correctly in Hi. rewrite Hq in Hi.
    by apply bool_decide_eq_true in Hi.
  - intros Hall. f_equal. rewrite filter_length_all; [apply length_seq|].
    intros i Hi. apply elem_of_seq in Hi. unfold P, answered_correctly.
    destruct (questions !! i) as [qn|] eqn:Hq.
    + apply bool_decide_eq_true. by apply Hall.
    + apply lookup_ge_None in Hq. lia.
Qed.

Lemma forEach_grade_ext (questions : list Question) (i : nat)
    (answers1 answers2 : gmap nat Z) (acc : Z) :
  (∀ j, i ≤ j < i + length questions → answers1 !! j = answers2 !! j) →
  forEach_grade questions i answers1 acc = forEach_grade questions i answers2 acc.
Proof.
  revert i acc. induction questions as [|qn rest IH]; intros i acc Hagree; [done|].
  cbn [forEach_grade]. rewrite (Hagree i) by (cbn [length]; lia).
  apply IH. intros j Hj. apply Hagree. cbn [length]. lia.
Qed.

(** X2.  Grading reads the answers at the indices of the quiz only: two
    answer objects that agree there are graded alike. *)
Theorem grade_ignores_answers_beyond_quiz (questions : list Question)
    (answers1 answers2 : gmap nat Z) :
  (∀ i, i < length questions → answers1 !! i = answers2 !! i) →
  grade questions answers1 = grade questions answers2.
Proof.
  intros Hagree. unfold grade. f_equal.
  apply forEach_grade_ext. intros j Hj. apply Hagree. lia.
Qed.

Lemma grade_ignores_answers_beyond_quiz_witness :
  grade [ {| q := "Q"; options := ["True"; "False"]; a := 1 |} ]
        {[ 0 := 1%Z; 7 := 3%Z ]}
  = grade [ {| q := "Q"; options := ["True"; "False"]; a := 1 |} ] {[ 0 := 1%Z ]}.
Proof.
  apply grade_ignores_answers_beyond_quiz.
  intros i Hi. simpl in Hi. assert (i = 0) as -> by lia. reflexivity.
Defined.

Lemma forEach_grade_shift (questions : list Question) (i : nat)
    (answers : gmap nat Z) (acc : Z) :
  forEach_grade questions i answers acc
  = (acc + forEach_grade questions i answers 0)%Z.
Proof.
  revert i acc. induction questions as [|qn rest IH]; intros i acc; cbn [forEach_grade].
  - lia.
  - rewrite IH. rewrite (IH (S i) (if bool_decide _ then _ else _)).
    destruct (bool_decide _); lia.
Qed.

Lemma forEach_grade_select (questions : list Question) (i idx : nat) (v : Z)
    (answers : gmap nat Z) (acc : Z) (qn : Question) :
  i ≤ idx → questions !! (idx - i) = Some qn →
  forEach_grade questions i (<[idx := v]> answers) acc
  = (forEach_grade questions i answers acc
     - (if bool_decide (answers !! idx = Some (a qn)) then 1 else 0)
     + (if bool_decide (v = a qn) then 1 else 0))%Z.
Proof.
  revert i acc. induction questions as [|q0 rest IH]; intros i acc Hi Hq; [done|].
  cbn [forEach_grade]. destruct (decide (i = idx)) as [->|Hne].
  - rewrite Nat.sub_diag in Hq. cbn in Hq. injection Hq as ->.
    rewrite lookup_insert_eq.
    rewrite (forEach_grade_ext rest (S idx) (<[idx:=v]> answers) answers)
      by (intros j Hj; apply lookup_insert_ne; lia).
    rewrite (forEach_grade_shift rest (S idx) answers (if bool_decide (Some v = _) then _ else _)).
    rewrite (forEach_grade_shift rest (S idx) answers (if bool_decide (answers !! idx = _) then _ else _)).
    assert (Hv : bool_decide (Some v = Some (a qn)) = bool_decide (v = a qn)).
    { apply bool_decide_ext. split; [by intros [= ->]|by intros ->]. }
    rewrite Hv. destruct (bool_decide (v = a qn)), (bool_decide (answers !! idx = _)); lia.
  - rewrite lookup_insert_ne by done.
    apply IH; [lia|].
    replace (idx - i) with (S (idx - S i)) in Hq by lia. exact Hq.
Qed.

(** X3.  Choosing an option for question [idx] changes the grade by that
    question alone: the old answer's point is taken away and the new
    answer's point is given. *)
Theorem selectOption_changes_one_answer (questions : list Question)
    (answers : gmap nat Z) (idx oi : nat) (qn : Question) :
  questions !! idx = Some qn →
  (grade questions (selectOption idx oi answers)).1
  = ((grade questions answers).1
     - (if bool_decide (answers !! idx = Some (a qn)) then 1 else 0)
     + (if bool_decide (Z.of_nat oi = a qn) then 1 else 0))%Z.
Proof.
  intros Hq. unfold grade, selectOption. cbn [fst].
  apply forEach_grade_select; [lia|]. by rewrite Nat.sub_0_r.
Qed.

Lemma selectOption_changes_one_answer_witness :
  (grade [ {| q := "Q"; options := ["True"; "False"]; a := 1 |} ]
         (selectOption 0 1 ∅)).1 = 1%Z.
Proof.
  exact (selectOption_changes_one_answer
           [ {| q := "Q"; options := ["True"; "False"]; a := 1 |} ] ∅ 0 1
           {| q := "Q"; options := ["True"; "False"]; a := 1 |} eq_refl).
Defined.

(** ** Further properties of the progress updates *)

Lemma handleQuizSubmit_exec (lessonId : string) (score outOf : Z) (p : Progress) :
  exec (handleQuizSubmit lessonId score outOf) p =
    {| completedLessons :=
         if JS.ge (JS.div (JS.of_Z score) (JS.of_Z outOf)) JS.half
         then <[lessonId := true]> (completedLessons p)
         else completedLessons p;
       quizScores :=
         <[lessonId := {| score := score; outOf := outOf |}]> (quizScores p) |}.
Proof.
  unfold exec, handleQuizSubmit, markComplete, bind, setProgress, ret. cbn.
  by destruct (JS.ge _ _).
Qed.

Lemma exec_bind {A B : Type} (c1 : State A) (c2 : State B) (p : Progress) :
  exec (c1 ;; c2) p = exec c2 (exec c1 p).
Proof. unfold exec, bind. by destruct (c1 p). Qed.

Lemma done_insert (cl : gmap string bool) (qs : gmap string QuizScore)
    (lessonId id : string) :
  done {| completedLessons := <[lessonId := true]> cl; quizScores := qs |} id
  = bool_decide (id = lessonId)
    || done {| completedLessons := cl; quizScores := qs |} id.
Proof.
  unfold done. cbn. destruct (decide (id = lessonId)) as [->|Hne].
  - by rewrite lookup_insert_eq, bool_decide_eq_true_2.
  - by rewrite lookup_insert_ne, bool_decide_eq_false_2.
Qed.

Lemma done_quizScores_irrelevant (cl : gmap string bool) (qs qs' : gmap string QuizScore)
    (id : string) :
  done {| completedLessons := cl; quizScores := qs |} id
  = done {| completedLessons := cl; quizScores := qs' |} id.
Proof. reflexivity. Qed.

Lemma div_by_zero_ge_half (score : Z) :
  (- 2 ^ 53 < score < 2 ^ 53)%Z →
  JS.ge (JS.div (JS.of_Z score) (JS.of_Z 0)) JS.half = bool_decide (0 < score)%Z.
Proof.
  intros Hs. destruct (Z.lt_trichotomy score 0) as [Hneg|[->|Hpos]].
  - destruct (JSFacts.of_Z_safe (- score) ltac:(lia)) as (m & e & _ & Hm & _).
    rewrite Z.opp_involutive in Hm. rewrite Hm.
    by rewrite bool_decide_eq_false_2 by lia.
  - reflexivity.
  - destruct (JSFacts.of_Z_safe score ltac:(lia)) as (m & e & -> & _).
    by rewrite bool_decide_eq_true_2 by lia.
Qed.

(** X4.  Submitting the form of a lesson with a quiz stores the grade and
    completes the lesson exactly when at least half of the questions are
    answered correctly, unless the lesson was completed before. *)
Theorem onSubmit_completes_iff (lesson : Lesson) (answers : gmap nat Z) (p : Progress) :
  hasQuizForm lesson = true →
  (Z.of_nat (length (quiz lesson)) < 2 ^ 53)%Z →
  let '(score, outOf) := grade (quiz lesson) answers in
  let p' := exec (onSubmit lesson answers) p in
  quizScores p' !! lesson_id lesson = Some {| score := score; outOf := outOf |}
  ∧ (done p' (lesson_id lesson) = true
     ↔ done p (lesson_id lesson) = true ∨ (outOf ≤ 2 * score)%Z).
Proof.
  intros Hform Hlen. unfold onSubmit.
  pose proof (grade_score_range (quiz lesson) answers) as Hb.
  destruct (grade (quiz lesson) answers) as [s n] eqn:Hg. cbn [fst snd] in Hb.
  assert (Hn : n = Z.of_nat (length (quiz lesson))) by (unfold grade in Hg; congruence).
  assert (Hpos : (0 < n)%Z).
  { unfold hasQuizForm in Hform. apply negb_true_iff, Nat.eqb_neq in Hform. lia. }
  rewrite handleQuizSubmit_exec. cbn [quizScores].
  split; [by rewrite lookup_insert_eq|].
  pose proof (div_ge_half s n ltac:(lia) ltac:(lia)) as Hge.
  destruct p as [cl qs]. cbn [completedLessons].
  destruct (JS.ge _ _).
  - rewrite done_insert, bool_decide_eq_true_2 by done. cbn.
    split; [intros _; right; by apply Hge|done].
  - rewrite (done_quizScores_irrelevant cl _ qs). split; [by left|].
    intros [Hd|Hle]; [done|]. apply Hge in Hle. discriminate.
Qed.

Lemma onSubmit_completes_iff_witness :
  done (exec (onSubmit
                {| lesson_id := "m1l1"; lesson_title := "What is Dropshipping?";
                   content := ""; video := None;
                   quiz := [ {| q := "Q"; options := ["True"; "False"]; a := 1 |} ] |}
                {[ 0 := 1%Z ]}) emptyProgress) "m1l1" = true.
Proof.
  pose proof (onSubmit_completes_iff
                {| lesson_id := "m1l1"; lesson_title := "What is Dropshipping?";
                   content := ""; video := None;
                   quiz := [ {| q := "Q"; options := ["True"; "False"]; a := 1 |} ] |}
                {[ 0 := 1%Z ]} emptyProgress eq_refl
                ltac:(vm_compute; reflexivity)) as H.
  cbv beta iota zeta delta [grade] in H. cbn [fst snd] in H.
  apply (proj2 H). right. vm_compute. discriminate.
Defined.

(** X5.  Submitting a quiz with no option chosen stores [0 / outOf] and
    completes nothing. *)
Theorem onSubmit_untouched_quiz (lesson : Lesson) (p : Progress) :
  hasQuizForm lesson = true →
  (Z.of_nat (length (quiz lesson)) < 2 ^ 53)%Z →
  let p' := exec (onSubmit lesson ∅) p in
  quizScores p' !! lesson_id lesson
    = Some {| score := 0; outOf := Z.of_nat (length (quiz lesson)) |}
  ∧ completedLessons p' = completedLessons p.
Proof.
  intros Hform Hlen. unfold onSubmit.
  pose proof (grade_score_range (quiz lesson) ∅) as Hb.
  assert (Hpos : (0 < length (quiz lesson))%nat).
  { unfold hasQuizForm in Hform. apply negb_true_iff, Nat.eqb_neq in Hform. lia. }
  assert (Hzero : (grade (quiz lesson) ∅).1 = 0%Z).
  { rewrite grade_as_count. cbn [fst].
    rewrite filter_length_none; [done|].
    intros i _. unfold answered_correctly.
    destruct (quiz lesson !! i); [|done].
    rewrite lookup_empty. by rewrite bool_decide_eq_false_2. }
  destruct (grade (quiz lesson) ∅) as [s n] eqn:Hg. cbn [fst snd] in *. subst s.
  assert (Hn : n = Z.of_nat (length (quiz lesson))) by (unfold grade in Hg; congruence).
  rewrite handleQuizSubmit_exec. cbn [quizScores completedLessons].
  split; [rewrite lookup_insert_eq; congruence|].
  pose proof (div_ge_half 0 n ltac:(lia) ltac:(lia)) as Hge.
  destruct (JS.ge _ _); [|done].
  destruct Hge as [Hge _]. specialize (Hge eq_refl). lia.
Qed.

Lemma onSubmit_untouched_quiz_witness :
  completedLessons
    (exec (onSubmit
             {| lesson_id := "m1l1"; lesson_title := "What is Dropshipping?";
                content := ""; video := None;
                quiz := [ {| q := "Q"; options := ["True"; "False"]; a := 1 |} ] |}
             ∅) emptyProgress)
  = completedLessons emptyProgress.
Proof.
  exact (proj2 (onSubmit_untouched_quiz
                  {| lesson_id := "m1l1"; lesson_title := "What is Dropshipping?";
                     content := ""; video := None;
                     quiz := [ {| q := "Q"; options := ["True"; "False"]; a := 1 |} ] |}
                  emptyProgress eq_refl ltac:(vm_compute; reflexivity))).
Defined.

(** X6.  With [outOf = 0] the test divides by zero: a positive score gives
    [Infinity] and completes the lesson, a zero score gives [NaN] and a
    negative score gives [-Infinity], which complete nothing. *)
Theorem handleQuizSubmit_zero_questions (lessonId : string) (score : Z) (p : Progress) :
  (- 2 ^ 53 < score < 2 ^ 53)%Z →
  let p' := exec (handleQuizSubmit lessonId score 0) p in
  quizScores p' !! lessonId = Some {| score := score; outOf := 0 |}
  ∧ (done p' lessonId = true ↔ done p lessonId = true ∨ (0 < score)%Z).
Proof.
  intros Hs. rewrite handleQuizSubmit_exec, div_by_zero_ge_half by done.
  cbn [quizScores]. split; [by rewrite lookup_insert_eq|].
  destruct p as [cl qs]. cbn [completedLessons].
  destruct (decide (0 < score)%Z) as [Hpos|Hnpos].
  - rewrite bool_decide_eq_true_2 by done.
    rewrite done_insert, bool_decide_eq_true_2 by done. cbn. split; [by right|done].
  - rewrite bool_decide_eq_false_2 by done.
    rewrite (done_quizScores_irrelevant cl _ qs). split; [by left|].
    intros [?|?]; [done|lia].
Qed.

Lemma handleQuizSubmit_zero_questions_witness :
  done (exec (handleQuizSubmit "m1l2" 1 0) emptyProgress) "m1l2" = true.
Proof.
  apply (proj2 (proj2 (handleQuizSubmit_zero_questions "m1l2" 1 emptyProgress
                         ltac:(vm_compute; split; reflexivity)))).
  right. reflexivity.
Defined.

Lemma done_preserved (lessonId : string) (score outOf : Z) (p : Progress) (id : string) :
  done p id = true →
  done (exec (markComplete lessonId) p) id = true
  ∧ done (exec (handleQuizSubmit lessonId score outOf) p) id = true.
Proof.
  intros Hd. rewrite handleQuizSubmit_exec. destruct p as [cl qs].
  unfold exec, markComplete, setProgress. cbn [snd completedLessons quizScores].
  split.
  - rewrite done_insert. rewrite Hd. apply orb_true_r.
  - destruct (JS.ge _ _).
    + rewrite done_insert, (done_quizScores_irrelevant cl _ qs), Hd. apply orb_true_r.
    + by rewrite (done_quizScores_irrelevant cl _ qs).
Qed.

Lemma reads_done_insert (cl : gmap string bool) (qs : gmap string QuizScore)
    (lessonId id : string) :
  reads_done {| completedLessons := <[lessonId := true]> cl; quizScores := qs |} id
  = bool_decide (id = lessonId)
    || reads_done {| completedLessons := cl; quizScores := qs |} id.
Proof.
  unfold reads_done. cbn. destruct (decide (id = lessonId)) as [->|Hne].
  - by rewrite lookup_insert_eq, bool_decide_eq_true_2.
  - by rewrite lookup_insert_ne, (bool_decide_eq_false_2 (id = lessonId)).
Qed.

Lemma reads_done_preserved (lessonId : string) (score outOf : Z) (p : Progress)
    (id : string) :
  reads_done p id = true →
  reads_done (exec (markComplete lessonId) p) id = true
  ∧ reads_done (exec (handleQuizSubmit lessonId score outOf) p) id = true.
Proof.
  intros Hd. rewrite handleQuizSubmit_exec. destruct p as [cl qs].
  unfold exec, markComplete, setProgress. cbn [snd completedLessons quizScores].
  assert (Hqs : ∀ qs', reads_done {| completedLessons := cl; quizScores := qs' |} id
                       = true) by (intros qs'; exact Hd).
  split.
  - rewrite reads_done_insert, Hqs. apply orb_true_r.
  - destruct (JS.ge _ _); [|apply Hqs].
    rewrite reads_done_insert, Hqs. apply orb_true_r.
Qed.

(** X7.  Neither [markComplete] nor [handleQuizSubmit] takes a completion
    back: a completed lesson stays completed, and a course whose
    certificate check holds keeps it. *)
Theorem updates_never_revoke (course : Course) (lessonId : string) (score outOf : Z)
    (p : Progress) :
  (∀ id, done p id = true →
         done (exec (markComplete lessonId) p) id = true
         ∧ done (exec (handleQuizSubmit lessonId score outOf) p) id = true)
  ∧ (allDone course p = true →
     allDone course (exec (markComplete lessonId) p) = true
     ∧ allDone course (exec (handleQuizSubmit lessonId score outOf) p) = true).
Proof.
  assert (Hdone : ∀ id, done p id = true →
            done (exec (markComplete lessonId) p) id = true
            ∧ done (exec (handleQuizSubmit lessonId score outOf) p) id = true)
    by (intros id; apply done_preserved).
  split; [exact Hdone|].
  intros Hall. rewrite !allDone_iff in *.
  split; intros id Hid; by apply reads_done_preserved, Hall.
Qed.

(** X8.  [markComplete] raises the completed count by one for an id that
    is no key yet, and leaves it as it is for an id that is a key. *)
Theorem completedCount_markComplete (lessonId : string) (p : Progress) :
  completedCount (exec (markComplete lessonId) p)
  = (completedCount p
     + (if bool_decide (lessonId ∈ dom (completedLessons p)) then 0 else 1))%Z.
Proof.
  destruct p as [cl qs]. unfold completedCount, exec, markComplete, setProgress.
  cbn [snd completedLessons].
  destruct (cl !! lessonId) as [v|] eqn:Hl.
  - rewrite bool_decide_eq_true_2 by (apply elem_of_dom; eauto).
    rewrite <- (insert_delete_id cl lessonId v Hl) at 2.
    rewrite <- (insert_delete_eq cl).
    rewrite !map_size_insert_None by apply lookup_delete_eq. lia.
  - rewrite bool_decide_eq_false_2 by (by apply not_elem_of_dom).
    rewrite map_size_insert_None by done. lia.
Qed.

(** X9.  The order in which two lessons are marked complete does not
    matter. *)
Theorem markComplete_commutes (id1 id2 : string) (p : Progress) :
  exec (markComplete id1 ;; markComplete id2) p
  = exec (markComplete id2 ;; markComplete id1) p.
Proof.
  destruct p as [cl qs]. unfold exec, markComplete, bind, setProgress. cbn.
  f_equal. destruct (decide (id1 = id2)) as [->|Hne]; [done|].
  by apply insert_insert_ne.
Qed.

(** X10.  Submitting a quiz again replaces the stored score by the new one,
    keeps a completion the earlier submission earned, and submitting the
    same result twice in a row is submitting it once. *)
Theorem handleQuizSubmit_retake (lessonId : string) (s1 o1 s2 o2 : Z) (p : Progress) :
  let p1 := exec (handleQuizSubmit lessonId s1 o1) p in
  let p2 := exec (handleQuizSubmit lessonId s2 o2) p1 in
  quizScores p2 !! lessonId = Some {| score := s2; outOf := o2 |}
  ∧ (done p1 lessonId = true → done p2 lessonId = true)
  ∧ exec (handleQuizSubmit lessonId s2 o2 ;; handleQuizSubmit lessonId s2 o2) p1 = p2.
Proof.
  cbn zeta. split; [|split].
  - rewrite (handleQuizSubmit_exec lessonId s2 o2). cbn. by rewrite lookup_insert_eq.
  - intros Hd.
    by apply done_preserved.
  - set (p1 := exec (handleQuizSubmit lessonId s1 o1) p).
    rewrite exec_bind, !(handleQuizSubmit_exec lessonId s2 o2). cbn [completedLessons quizScores].
    f_equal.
    + destruct (JS.ge _ _); [by rewrite insert_insert_eq|done].
    + by rewrite insert_insert_eq.
Qed.

(** ** Certificate *)

Lemma done_markAll (ids : list string) (p : Progress) (id : string) :
  done (exec (markAll ids) p) id = true ↔ id ∈ ids ∨ done p id = true.
Proof.
  revert p. induction ids as [|i ids IH]; intros p; cbn [markAll].
  - unfold exec, ret. cbn. split; [by right|]. intros [H|H]; [by apply elem_of_nil in H|done].
  - rewrite exec_bind, IH. destruct p as [cl qs].
    unfold exec, markComplete, setProgress. cbn [snd].
    rewrite done_insert, orb_true_iff, bool_decide_eq_true, elem_of_cons. tauto.
Qed.

(** X11.  When no lesson id is a property name of [Object.prototype],
    [Quick Print Certificate] opens the print window exactly when every
    lesson id of the course is in the set of completed lessons, and alerts
    otherwise. *)
Theorem quickPrintCertificate_iff (course : Course) (p : Progress) :
  (∀ id, id ∈ lessonsOf course → id ∉ Object_prototype_names) →
  (quickPrintCertificate course p = PrintWindow ↔ isCertificateEligible course p)
  ∧ (quickPrintCertificate course p ≠ PrintWindow →
     quickPrintCertificate course p = Alert "Finish all lessons to get a certificate.").
Proof.
  intros Hown. unfold quickPrintCertificate.
  pose proof (allDone_eligible course p Hown) as Hiff.
  destruct (allDone course p); cbn.
  - split; [|done]. split; [intros _; by apply Hiff|done].
  - split; [|done]. split; [done|]. intros H. apply Hiff in H. discriminate.
Qed.

Lemma quickPrintCertificate_iff_witness :
  quickPrintCertificate SAMPLE_COURSE partialProgress
  = Alert "Finish all lessons to get a certificate.".
Proof.
  refine (proj2 (quickPrintCertificate_iff SAMPLE_COURSE partialProgress _) _).
  - apply (proj1 (Forall_forall (λ id, id ∉ Object_prototype_names)
                    (lessonsOf SAMPLE_COURSE))).
    refine (bool_decide_unpack (Forall _ _) _). vm_compute. exact I.
  - vm_compute. discriminate.
Defined.

(** X12.  Marking every lesson of the course complete, in any order and
    from any record, makes the certificate printable. *)
Theorem markAll_unlocks_certificate (course : Course) (ids : list string) (p : Progress) :
  (∀ id, id ∈ lessonsOf course → id ∈ ids) →
  quickPrintCertificate course (exec (markAll ids) p) = PrintWindow.
Proof.
  intros Hall. unfold quickPrintCertificate.
  replace (allDone course (exec (markAll ids) p)) with true; [done|].
  symmetry. apply allDone_iff. intros id Hid.
  apply done_reads_done, done_markAll. left. by apply Hall.
Qed.

Lemma markAll_unlocks_certificate_witness :
  quickPrintCertificate SAMPLE_COURSE
    (exec (markAll ["m2l1"; "m1l2"; "m1l1"]) emptyProgress) = PrintWindow.
Proof.
  apply markAll_unlocks_certificate.
  intros id Hid. change (id ∈ ["m1l1"; "m1l2"; "m2l1"]) in Hid.
  repeat match goal with
         | H : _ ∈ _ :: _ |- _ => apply elem_of_cons in H as [->|H]
         | H : _ ∈ [] |- _ => by apply elem_of_nil in H
         end;
    repeat first [apply list_elem_of_here | apply list_elem_of_further].
Defined.

(** ** Percentage *)

(** X13.  On a course without lessons the percentage is 0 for a record
    without completed ids and [Infinity] for every other record. *)
Theorem zero_lesson_course_percentage (course : Course) (p : Progress) :
  totalLessons course = 0%Z → (completedCount p < 2 ^ 53)%Z →
  pct course p
  = if bool_decide (completedCount p = 0%Z) then JS.of_Z 0 else S754_infinity false.
Proof.
  intros Ht Hc. unfold pct, percent. rewrite Ht.
  destruct (decide (completedCount p = 0%Z)) as [->|Hne].
  - reflexivity.
  - rewrite bool_decide_eq_false_2 by done.
    assert (0 ≤ completedCount p)%Z by (unfold completedCount; lia).
    destruct (JSFacts.of_Z_safe (completedCount p) ltac:(lia)) as (m & e & -> & _).
    reflexivity.
Qed.

Lemma zero_lesson_course_percentage_witness :
  pct EMPTY_COURSE foreignProgress = S754_infinity false.
Proof.
  exact (zero_lesson_course_percentage EMPTY_COURSE foreignProgress eq_refl
           ltac:(vm_compute; reflexivity)).
Defined.

(** X14.  The percentage is never [NaN], and for the empty record it is 0
    on every course, also on one without lessons. *)
Theorem pct_never_NaN (course : Course) (p : Progress) :
  pct course p ≠ S754_nan
  ∧ ((totalLessons course < 2 ^ 53)%Z → pct course emptyProgress = JS.of_Z 0).
Proof.
  split.
  - unfold pct, percent, JS.or.
    destruct (JS.truthy _) eqn:E; [|discriminate].
    intros Hnan. rewrite Hnan in E. discriminate.
  - intros Ht. unfold pct.
    change (completedCount emptyProgress) with 0%Z.
    assert (0 ≤ totalLessons course)%Z by (rewrite totalLessons_length; lia).
    destruct (decide (totalLessons course = 0%Z)) as [->|Hne]; [reflexivity|].
    apply percent_zero. lia.
Qed.

(** X15.  Whenever [100 * completed / total] is a whole number, the
    percentage is that number: rounding in binary64 costs nothing
    there. *)
Theorem pct_exact_when_whole (course : Course) (p : Progress) (whole : Z) :
  (0 < totalLessons course < 2 ^ 53)%Z → (completedCount p < 2 ^ 44)%Z →
  (100 * completedCount p = whole * totalLessons course)%Z →
  pct course p = JS.of_Z whole.
Proof.
  intros Ht Hc Hw.
  assert (0 ≤ completedCount p)%Z by (unfold completedCount; lia).
  destruct (percent_nearest (completedCount p) (totalLessons course)) as (k & Hk & Hb);
    [lia|done|].
  unfold pct. rewrite Hk. f_equal.
  set (t := totalLessons course) in *. set (c := completedCount p) in *.
  replace (2 * t * k - 200 * c)%Z with (t * (2 * (k - whole)))%Z in Hb by lia.
  rewrite Z.abs_mul, (Z.abs_eq t) in Hb by lia.
  assert (Hb' : (t * Z.abs (2 * (k - whole)) ≤ t * 1)%Z) by lia.
  apply Z.mul_le_mono_pos_l in Hb'; lia.
Qed.

Lemma pct_exact_when_whole_witness :
  pct SAMPLE_COURSE foreignProgress = JS.of_Z 100.
Proof.
  exact (pct_exact_when_whole SAMPLE_COURSE foreignProgress 100
           ltac:(vm_compute; split; reflexivity) ltac:(vm_compute; reflexivity)
           ltac:(vm_compute; reflexivity)).
Defined.

(** ** Sidebar *)

Lemma sidebarMarks_map (course : Course) (p : Progress) :
  sidebarMarks course p = map (reads_done p) (lessonsOf course).
Proof.
  unfold sidebarMarks, lessonsOf.
  induction (modules course) as [|m ms IH]; [done|].
  cbn [flat_map]. rewrite map_app, map_map. by f_equal.
Qed.

(** X16.  The sidebar shows one mark per lesson, and with pairwise
    distinct lesson ids, none of them a property name of
    [Object.prototype], it ticks at most as many lessons as the header
    counts as completed. *)
Theorem sidebar_ticks_at_most_count (course : Course) (p : Progress) :
  NoDup (lessonsOf course) →
  (∀ id, id ∈ lessonsOf course → id ∉ Object_prototype_names) →
  length (sidebarMarks course p) = length (lessonsOf course)
  ∧ (Z.of_nat (length (filter (λ b, b = true) (sidebarMarks course p)))
     ≤ completedCount p)%Z.
Proof.
  intros Hnd Hown. rewrite sidebarMarks_map. split; [by rewrite length_map|].
  unfold completedCount. apply inj_le. rewrite <- size_dom.
  set (ticked := filter (λ id, reads_done p id = true) (lessonsOf course)).
  assert (Hlen : length (filter (λ b, b = true) (map (reads_done p) (lessonsOf course)))
                 = length ticked).
  { subst ticked. clear Hown. induction (lessonsOf course) as [|x l IH]; [done|].
    cbn [map]. rewrite !filter_cons.
    assert (IH' := IH (NoDup_cons_1_2 _ _ Hnd)).
    destruct (decide (reads_done p x = true)); cbn [length]; by rewrite IH'. }
  rewrite Hlen.
  assert (Hnd' : NoDup ticked) by (by apply NoDup_filter).
  rewrite <- (size_list_to_set (C := gset string) ticked Hnd').
  apply subseteq_size. intros id Hid.
  apply elem_of_list_to_set, list_elem_of_filter in Hid as [Hd Hin].
  rewrite reads_done_own in Hd by auto.
  unfold done in Hd. apply elem_of_dom.
  destruct (completedLessons p !! id); [done|discriminate].
Qed.

Lemma sidebar_ticks_at_most_count_witness :
  (Z.of_nat (length (filter (λ b, b = true) (sidebarMarks SAMPLE_COURSE partialProgress)))
   ≤ completedCount partialProgress)%Z.
Proof.
  refine (proj2 (sidebar_ticks_at_most_count SAMPLE_COURSE partialProgress _ _)).
  - refine (bool_decide_unpack (NoDup (lessonsOf SAMPLE_COURSE)) _). vm_compute. exact I.
  - apply (proj1 (Forall_forall (λ id, id ∉ Object_prototype_names)
                    (lessonsOf SAMPLE_COURSE))).
    refine (bool_decide_unpack (Forall _ _) _). vm_compute. exact I.
Defined.

(** ** Selection *)

Lemma find_by_key {A : Type} (key : A → string) (l : list A) (x : A) :
  NoDup (map key l) → x ∈ l →
  find (λ y, bool_decide (key y = key x)) l = Some x.
Proof.
  induction l as [|y l IH]; intros Hnd Hx; [by apply elem_of_nil in Hx|].
  cbn [map] in Hnd. apply NoDup_cons in Hnd as [Hy Hnd].
  cbn [find]. apply elem_of_cons in Hx as [->|Hx].
  - by rewrite bool_decide_eq_true_2.
  - rewrite bool_decide_eq_false_2; [by apply IH|].
    intros Heq. apply Hy. rewrite Heq. apply list_elem_of_fmap. by exists x.
Qed.

(** X17.  The initial selection, when it can be made, resolves to the
    first lesson of the first module. *)
Theorem initialSelection_resolves (course : Course) (mId lId : string) :
  initialSelection course = Ok (mId, lId) →
  ∃ m l, head (modules course) = Some m ∧ head (lessons m) = Some l
         ∧ activeLesson course mId lId = Some l.
Proof.
  unfold initialSelection, activeLesson.
  destruct (modules course) as [|m ms]; [done|].
  destruct (lessons m) as [|l ls] eqn:Hl; [done|].
  intros [= <- <-]. exists m, l. cbn [head find].
  rewrite bool_decide_eq_true_2 by done. rewrite Hl. cbn [head find].
  by rewrite bool_decide_eq_true_2.
Qed.

Lemma initialSelection_resolves_witness :
  ∃ m l, head (modules SAMPLE_COURSE) = Some m ∧ head (lessons m) = Some l
         ∧ activeLesson SAMPLE_COURSE "m1" "m1l1" = Some l.
Proof. exact (initialSelection_resolves SAMPLE_COURSE "m1" "m1l1" eq_refl). Defined.

(** X18.  The initial selection throws exactly when the first module is
    missing or has no lesson; in particular on every course without
    lessons. *)
Theorem initialSelection_needs_first_lesson (course : Course) :
  ((∃ e, initialSelection course = Throw e)
   ↔ ∀ m, head (modules course) = Some m → lessons m = [])
  ∧ (totalLessons course = 0%Z → ∃ e, initialSelection course = Throw e).
Proof.
  assert (Hiff : (∃ e, initialSelection course = Throw e)
                 ↔ ∀ m, head (modules course) = Some m → lessons m = []).
  { unfold initialSelection. destruct (modules course) as [|m ms]; cbn [head].
    - split; [done|]. intros _. by eexists.
    - destruct (lessons m) as [|l ls] eqn:Hl.
      + split; [|intros _; by eexists]. intros _ m' [= <-]. done.
      + split; [by intros [e ?]|]. intros H. specialize (H m eq_refl). congruence. }
  split; [exact Hiff|].
  intros Ht. apply Hiff. intros m Hm.
  rewrite totalLessons_length in Ht. unfold lessonsOf in Ht.
  destruct (modules course) as [|m' ms]; [done|]. cbn [head] in Hm. injection Hm as ->.
  cbn [flat_map] in Ht. rewrite length_app, length_map in Ht.
  destruct (lessons m); [done|cbn [length] in Ht; lia].
Qed.

(** X19.  A resolved active lesson carries the selected lesson id and
    belongs to a module that carries the selected module id. *)
Theorem activeLesson_sound (course : Course) (mId lId : string) (l : Lesson) :
  activeLesson course mId lId = Some l →
  lesson_id l = lId
  ∧ ∃ m, m ∈ modules course ∧ module_id m = mId ∧ l ∈ lessons m.
Proof.
  unfold activeLesson.
  destruct (find _ (modules course)) as [m|] eqn:Hm; [|done].
  intros Hl. apply find_some in Hm as [Hm1 Hm2], Hl as [Hl1 Hl2].
  apply bool_decide_eq_true in Hm2, Hl2.
  split; [done|]. exists m. by rewrite <- !list_elem_of_In in *.
Qed.

Lemma activeLesson_sound_witness :
  ∃ l, activeLesson SAMPLE_COURSE "m2" "m2l1" = Some l ∧ lesson_id l = "m2l1".
Proof.
  destruct (activeLesson SAMPLE_COURSE "m2" "m2l1") as [l|] eqn:E;
    [|vm_compute in E; discriminate].
  exists l. split; [reflexivity|].
  exact (proj1 (activeLesson_sound SAMPLE_COURSE "m2" "m2l1" l E)).
Defined.

(** X20.  With pairwise distinct module ids, and pairwise distinct lesson
    ids inside the module, selecting a lesson of the course makes it the
    active lesson. *)
Theorem activeLesson_finds_selected (course : Course) (m : Module_) (l : Lesson) :
  NoDup (map module_id (modules course)) →
  NoDup (map lesson_id (lessons m)) →
  m ∈ modules course → l ∈ lessons m →
  let '(mId, lId) := handleSelectLesson (module_id m) (lesson_id l) ("", "") in
  activeLesson course mId lId = Some l.
Proof.
  intros Hm Hl Hin Hlin. cbn. unfold activeLesson.
  rewrite (find_by_key module_id) by done.
  by rewrite (find_by_key lesson_id).
Qed.

Lemma activeLesson_finds_selected_witness :
  ∃ m l, modules SAMPLE_COURSE !! 1 = Some m ∧ lessons m !! 0 = Some l
         ∧ activeLesson SAMPLE_COURSE (module_id m) (lesson_id l) = Some l.
Proof.
  eexists _, _. split; [reflexivity|]. split; [reflexivity|].
  refine (activeLesson_finds_selected SAMPLE_COURSE _ _ _ _ _ _).
  - refine (bool_decide_unpack (NoDup _) _). vm_compute. exact I.
  - refine (bool_decide_unpack (NoDup _) _). vm_compute. exact I.
  - apply list_elem_of_lookup. by exists 1.
  - apply list_elem_of_lookup. by exists 0.
Defined.

(** ** Admin editor *)

Lemma lessonsOf_add (now : N) (course : Course) (typed : string) :
  lessonsOf (add now course typed).1 = lessonsOf course.
Proof.
  unfold add, lessonsOf. destruct (string_truthy typed); cbn; [|done].
  rewrite flat_map_app. cbn. by rewrite app_nil_r.
Qed.

(** X21.  Adding a module changes no lesson list, hence neither the
    lesson total, nor the percentage, nor the certificate check. *)
Theorem add_keeps_progress_views (now : N) (course : Course) (typed : string)
    (p : Progress) :
  let course' := (add now course typed).1 in
  lessonsOf course' = lessonsOf course
  ∧ totalLessons course' = totalLessons course
  ∧ pct course' p = pct course p
  ∧ allDone course' p = allDone course p
  ∧ quickPrintCertificate course' p = quickPrintCertificate course p.
Proof.
  cbn zeta. pose proof (lessonsOf_add now course typed) as HL.
  assert (HT : totalLessons (add now course typed).1 = totalLessons course)
    by (by rewrite !totalLessons_length, HL).
  assert (HA : allDone (add now course typed).1 p = allDone course p).
  { apply eq_true_iff_eq. rewrite !allDone_iff. unfold isCertificateEligible.
    by rewrite HL. }
  split; [done|]. split; [done|]. split; [by unfold pct; rewrite HT|].
  split; [done|]. unfold quickPrintCertificate. by rewrite HA.
Qed.

(** X22.  [add] empties the input, so pressing [Add] again without typing
    adds nothing: one typed title gives one module. *)
Theorem add_twice_adds_once (now now' : N) (course : Course) (typed : string) :
  add now' (add now course typed).1 (add now course typed).2 = add now course typed
  ∧ length (modules (add now course typed).1)
    = length (modules course) + (if string_truthy typed then 1 else 0).
Proof.
  unfold add. destruct typed as [|c s]; cbn; [split; [done|lia]|].
  split; [done|]. rewrite length_app. cbn. lia.
Qed.

Lemma minted_before_mono (now now' : N) (id : string) :
  (now ≤ now')%N → minted_before now id → minted_before now' id.
Proof. intros Hle H t Ht. specialize (H t Ht). lia. Qed.

Lemma add_keeps_ids_unique (now t : N) (course : Course) (typed : string) :
  (now ≤ t)%N →
  NoDup (map module_id (modules course)) →
  Forall (minted_before now) (map module_id (modules course)) →
  NoDup (map module_id (modules (add t course typed).1))
  ∧ Forall (minted_before (t + 1)) (map module_id (modules (add t course typed).1)).
Proof.
  intros Hle Hnd Hall.
  assert (Hall' : Forall (minted_before (t + 1)) (map module_id (modules course))).
  { eapply Forall_impl; [exact Hall|]. intros id. apply minted_before_mono. lia. }
  unfold add. destruct (string_truthy typed); cbn; [|done].
  rewrite map_app. cbn. split.
  - apply NoDup_app. split; [done|]. split; [|apply NoDup_singleton].
    intros id Hid Hnew. apply list_elem_of_singleton in Hnew. subst id.
    rewrite Forall_forall in Hall. specialize (Hall _ Hid t eq_refl). lia.
  - apply Forall_app. split; [done|]. apply Forall_singleton.
    intros t' Ht'. apply module_id_at_inj in Ht'. lia.
Qed.

(** X23.  As long as the clock advances from one click to the next, and
    no id of the course looks like an id of a later click, the module ids
    stay pairwise distinct. *)
Theorem addAll_keeps_ids_unique (events : list (N * string)) (now : N) (course : Course) :
  advancing now events →
  NoDup (map module_id (modules course)) →
  Forall (minted_before now) (map module_id (modules course)) →
  NoDup (map module_id (modules (addAll events course))).
Proof.
  revert now course. induction events as [|[t typed] rest IH]; intros now course Hadv Hnd Hall.
  - done.
  - cbn [addAll]. destruct Hadv as [Hle Hadv].
    destruct (add_keeps_ids_unique now t course typed Hle Hnd Hall) as [Hnd' Hall'].
    by apply (IH (t + 1)%N).
Qed.

Lemma sample_ids_not_minted (now : N) :
  Forall (minted_before now) (map module_id (modules SAMPLE_COURSE)).
Proof.
  repeat constructor; intros t Ht; unfold module_id_at in Ht; cbn in Ht; discriminate.
Qed.

Lemma addAll_keeps_ids_unique_witness :
  NoDup (map module_id
           (modules (addAll [(1730000000000%N, "Bonus"); (1730000000500%N, "");
                             (1730000000501%N, "Extras")] SAMPLE_COURSE))).
Proof.
  refine (addAll_keeps_ids_unique _ 0%N SAMPLE_COURSE _ _ (sample_ids_not_minted 0)).
  - cbn. lia.
  - refine (bool_decide_unpack (NoDup (map module_id (modules SAMPLE_COURSE))) _).
    vm_compute. exact I.
Defined.

(** ** Persistence *)

Section PersistenceRoundTrip.
Variable JSON_parse : string → result json.
Variable JSON_stringify : json → string.


(** X25.  [Reset Progress] removes the stored record, so that loading
    gives the default record whatever was stored, empties the progress
    record, and touches no other key of the bucket. *)
Theorem resetProgress_clears (items : gmap string string) (p : Progress) :
∃ st', resetProgress (Bucket items) p = Ok (st', emptyProgress)
       ∧ getItem st' STORAGE_KEY = Ok None
       ∧ loadProgress JSON_parse st' = defaultProgress
       ∧ (∀ key, key ≠ STORAGE_KEY → getItem st' key = getItem (Bucket items) key)
       ∧ (∀ id, done emptyProgress id = false)
       ∧ completedCount emptyProgress = 0%Z.
Proof.
eexists. split; [reflexivity|]. cbn [getItem].
rewrite lookup_delete_eq. split; [done|]. split.
- unfold loadProgress. cbn [getItem result_bind]. by rewrite lookup_delete_eq.
- split; [|done]. intros key Hkey. by rewrite lookup_delete_ne.
Qed.
End PersistenceRoundTrip.

